(** * Flappy Bird: a shallow embedding of [flappy-bird.py]

    The simulation core of the game (particles, bird, pipes, the session and
    its four-mode state machine) is embedded as Rocq functions and the
    properties of the specification are proved about them.

    Numbers are modelled as Python has them:
    - a Python [int] is a [Z];
    - a Python [float] is an IEEE 754 binary64 value, Rocq's primitive
      [float], whose [+ - * /] and comparisons round and compare exactly as
      CPython's do.

    The fields that the program only ever fills with ints ([Bird.x],
    [Bird.size], every field of [Pipe], the score counters) are [Z]; the
    fields that hold floats after the first tick ([Bird.y], [Bird.velocity],
    timers, particle coordinates) are [float], an int stored there being
    converted by [float_of_int] (a conversion Python performs itself at the
    first mixed operation, with the same value). *)

From Stdlib Require Import ZArith List Bool Lia Floats.
From Stdlib Require Import Sorted.
Import ListNotations.

Set Warnings "-inexact-float".
Local Open Scope Z_scope.

(** ** Python numbers *)

(** [float(n)] for an int [n]: the nearest binary64 value. *)
Definition float_of_int (n : Z) : float :=
  SF2Prim (binary_normalize prec emax n 0 false).

(** The builtin [max(a, b)] on two arguments: the first one unless the
    second is strictly greater. *)
Definition py_max (a b : float) : float := if (a <? b)%float then b else a.

(** The builtin [min(a, b)]: the first one unless the second is strictly
    smaller. *)
Definition py_min (a b : float) : float := if (b <? a)%float then b else a.

(** [int(x)] for a float [x]: its integer part, truncated toward zero.
    Python raises for an infinity ([OverflowError]) and for NaN
    ([ValueError]): [None] here. *)
Definition py_int (x : float) : option Z :=
  match Prim2SF x with
  | S754_zero _ => Some 0
  | S754_finite s m e =>
      let n := if 0 <=? e then Z.shiftl (Zpos m) e
               else Z.shiftr (Zpos m) (- e) in
      Some (if s then - n else n)
  | _ => None
  end.

(** ** Game constants *)

Definition SCREEN_WIDTH : Z := 400.
Definition SCREEN_HEIGHT : Z := 600.
Definition FPS : Z := 60.
Definition GRAVITY : float := 0.4%float.
Definition FLAP_POWER : Z := -9.
Definition PIPE_VELOCITY : Z := -4.
Definition PIPE_GAP : Z := 120.
Definition MIN_PIPE_HEIGHT : Z := 50.
Definition MAX_PIPE_HEIGHT : Z := SCREEN_HEIGHT - PIPE_GAP - MIN_PIPE_HEIGHT.
Definition COLOR_SCORE : Z * Z * Z := (255, 215, 0).
Definition COLOR_PIPE : Z * Z * Z := (60, 200, 80).
Definition COLOR_PIPE_DARK : Z * Z * Z := (40, 150, 60).
Definition COLOR_PIPE_SHINE : Z * Z * Z := (100, 230, 120).

(** [math.pi], the binary64 value nearest to pi. *)
Definition math_pi : float := 0x1.921fb54442d18p+1%float.

Inductive GameState : Type := MENU | PLAYING | GAME_OVER | PAUSED.

(** ** The libraries the game calls

    [random], [math] and [pygame.Rect] are not code of this program.  They
    are an interface here: the state of the global generator of [random] is
    threaded explicitly, [random.randint] is known to answer in the closed
    range it is given, and [pygame.Rect] turns a float coordinate into an
    int by [rect_int]. *)

Class PyLib : Type := {
  rng : Type;
  uniform : float -> float -> rng -> float * rng;
  randint : Z -> Z -> rng -> Z * rng;
  randint_range : forall a b g, a <= b -> a <= fst (randint a b g) <= b;
  math_cos : float -> float;
  math_sin : float -> float;
  rect_int : float -> Z
}.

(** [pygame.Rect(left, top, width, height)], with the derived attributes
    [right] and [bottom]. *)
Module Rect.
Record t : Type := { left : Z; top : Z; width : Z; height : Z }.
Definition right (r : t) : Z := left r + width r.
Definition bottom (r : t) : Z := top r + height r.
End Rect.

(** ** Drawing

    The calls a [draw] method makes to [pygame.draw], in the order it makes
    them: a circle (filled), a rectangle (filled when [width] is 0, an
    outline of that width otherwise), a line. *)

Module Draw.
Inductive cmd : Type :=
| circle (color : Z * Z * Z) (center : Z * Z) (radius : Z)
| rect (color : Z * Z * Z) (x y w h : Z) (width : Z)
| line (color : Z * Z * Z) (start stop : Z * Z) (width : Z).
End Draw.

(** ** Particle *)

Module Particle.

Record t : Type := {
  x : float; y : float; vx : float; vy : float;
  size : float; lifetime : float; color : Z * Z * Z
}.

Definition update (dt : float) (p : t) : t :=
  {| x := (x p + vx p)%float;
     y := (y p + vy p)%float;
     vx := vx p;
     vy := (vy p + 0.2)%float;
     size := (size p * 0.98)%float;
     lifetime := (lifetime p - dt)%float;
     color := color p |}.

(** The test [particle.lifetime <= 0] of the two aging loops. *)
Definition expired (p : t) : bool := (lifetime p <=? 0)%float.

(** The aging loop that [Bird.update] and [Game.update] both run:
    [for particle in ps[:]: particle.update(dt); if particle.lifetime <= 0:
    ps.remove(particle)].  Every particle of the copy is updated once, in
    order, and an expired one is taken out of the list.  ([remove] drops the
    first element equal to its argument; an element standing before it is a
    survivor, whose lifetime is not [<= 0], so it differs in that field and
    the element dropped is the expired particle itself.) *)
Definition update_all (dt : float) (ps : list t) : list t :=
  filter (fun p => negb (expired p)) (map (update dt) ps).

(** [draw]: nothing unless the particle is alive; the alpha it computes goes
    into a colour that is not used, the circle is drawn in [self.color].
    [None] when one of the [int(...)] raises. *)
Definition draw (p : t) : option (list Draw.cmd) :=
  if (0 <? lifetime p)%float then
    match py_int (255 * (lifetime p / 1.0)),
          py_int (x p), py_int (y p), py_int (size p) with
    | Some alpha, Some cx, Some cy, Some sz =>
        Some [Draw.circle (color p) (cx, cy) (Z.max 1 sz)]
    | _, _, _, _ => None
    end
  else Some [].

(** The [==] of the dataclass: the tuples of fields compared, floats by
    Python's [==] on floats. *)
Definition eqb (p q : t) : bool :=
  (x p =? x q)%float && (y p =? y q)%float && (vx p =? vx q)%float
  && (vy p =? vy q)%float && (size p =? size q)%float
  && (lifetime p =? lifetime q)%float
  && (let '(r1, g1, b1) := color p in
      let '(r2, g2, b2) := color q in
      (r1 =? r2) && (g1 =? g2) && (b1 =? b2)).

(** *** The aging loop, statement by statement

    A particle of a list is an object: [ident] tells one object from
    another, [val] is what its fields hold now. *)
Record obj : Type := { ident : nat; val : t }.

Section Loop.
(** What comparing the fields of two particles answers.  The dataclass
    compares the tuples of fields, and a tuple comparison takes two fields
    that are one and the same object as equal before it asks [==]. *)
Variable same_fields : t -> t -> bool.

(** [list.remove(v)]: the first element that is [v] itself or equal to it
    goes. *)
Fixpoint list_remove (v : obj) (l : list obj) : list obj :=
  match l with
  | [] => []
  | e :: rest =>
      if Nat.eqb (ident e) (ident v) || same_fields (val e) (val v)
      then rest
      else e :: list_remove v rest
  end.

(** [particle.update(dt)] on the object [o]: every reference to it sees the
    new fields. *)
Definition update_object (dt : float) (o : obj) (l : list obj) : list obj :=
  map (fun e => if Nat.eqb (ident e) (ident o)
                then {| ident := ident e; val := update dt (val e) |}
                else e) l.

(** [for particle in ps[:]: particle.update(dt); if particle.lifetime <= 0:
    ps.remove(particle)], with [copy] what is left of the copy [ps[:]] and
    [live] the list [ps]. *)
Fixpoint aging_loop (dt : float) (copy live : list obj) : list obj :=
  match copy with
  | [] => live
  | o :: rest =>
      let o' := {| ident := ident o; val := update dt (val o) |} in
      let live := update_object dt o live in
      let live := if expired (val o') then list_remove o' live else live in
      aging_loop dt rest live
  end.

End Loop.

End Particle.

(** ** Bird *)

Module Bird.
Section WithLib.
Context {L : PyLib}.

Record t : Type := {
  x : Z; y : float; velocity : float; rotation : float; size : Z;
  flap_cooldown : float; particles : list Particle.t
}.

Definition __init__ (x0 : Z) (y0 : float) : t :=
  {| x := x0; y := y0; velocity := 0; rotation := 0; size := 16;
     flap_cooldown := 0; particles := [] |}.

(** One round of the loop [for _ in range(5)] of [flap]: three draws
    (angle, speed, size, in the order Python evaluates them) and one
    particle appended. *)
Definition flap_particle (b : t) (st : list Particle.t * rng)
  : list Particle.t * rng :=
  let '(ps, g) := st in
  let '(angle, g) := uniform 0 (2 * math_pi) g in
  let '(speed, g) := uniform 2 5 g in
  let '(sz, g) := uniform 2 4 g in
  (ps ++ [ {| Particle.x := float_of_int (x b);
              Particle.y := y b;
              Particle.vx := (math_cos angle * speed)%float;
              Particle.vy := (math_sin angle * speed)%float;
              Particle.size := sz;
              Particle.lifetime := 0.5;
              Particle.color := (255, 200, 87) |} ], g).

Definition flap (b : t) (g : rng) : t * rng :=
  if (flap_cooldown b <=? 0)%float then
    let '(ps, g') := Nat.iter 5 (flap_particle b) (particles b, g) in
    ({| x := x b; y := y b;
        velocity := float_of_int FLAP_POWER;
        rotation := rotation b; size := size b;
        flap_cooldown := 0.1;
        particles := ps |}, g')
  else (b, g).

Definition update (dt : float) (b : t) : t :=
  let v := (velocity b + GRAVITY)%float in
  {| x := x b;
     y := (y b + v)%float;
     velocity := v;
     rotation := py_min 90 (py_max (-30) (v * 3));
     size := size b;
     flap_cooldown := (flap_cooldown b - dt)%float;
     particles := Particle.update_all dt (particles b) |}.

Definition get_rect (b : t) : Rect.t :=
  {| Rect.left := x b - size b;
     Rect.top := rect_int (y b - float_of_int (size b));
     Rect.width := size b * 2;
     Rect.height := size b * 2 |}.

End WithLib.
End Bird.

(** ** Pipe *)

Module Pipe.
Section WithLib.
Context {L : PyLib}.

Record t : Type := { x : Z; gap_y : Z; width : Z; passed : bool }.

Definition __init__ (x0 gap : Z) : t :=
  {| x := x0; gap_y := gap; width := 50; passed := false |}.

Definition update (dt : float) (p : t) : t :=
  {| x := x p + PIPE_VELOCITY; gap_y := gap_y p; width := width p;
     passed := passed p |}.

Definition is_off_screen (p : t) : bool := x p + width p <? 0.

Definition collides_with (p : t) (bird : Bird.t) : bool :=
  let bird_rect := Bird.get_rect bird in
  if (Rect.top bird_rect <? gap_y p)
     && (Rect.left bird_rect <? x p + width p)
     && (Rect.right bird_rect >? x p)
  then true
  else if (Rect.bottom bird_rect >? gap_y p + PIPE_GAP)
          && (Rect.left bird_rect <? x p + width p)
          && (Rect.right bird_rect >? x p)
  then true
  else false.

(** [pipe.passed = True], the assignment of the scoring loop. *)
Definition set_passed (p : t) : t :=
  {| x := x p; gap_y := gap_y p; width := width p; passed := true |}.

(** [draw]: the top stub from the ceiling down to the gap, the bottom stub
    from the gap down to the ground, each filled, outlined and given a
    highlight. *)
Definition draw (p : t) : list Draw.cmd :=
  let top_height := gap_y p in
  let bottom_y := gap_y p + PIPE_GAP in
  let bottom_height := SCREEN_HEIGHT - bottom_y in
  [ Draw.rect COLOR_PIPE (x p) 0 (width p) top_height 0;
    Draw.rect COLOR_PIPE_DARK (x p) 0 (width p) top_height 2;
    Draw.line COLOR_PIPE_SHINE (x p + 5, 0) (x p + 5, top_height) 1;
    Draw.rect COLOR_PIPE (x p) bottom_y (width p) bottom_height 0;
    Draw.rect COLOR_PIPE_DARK (x p) bottom_y (width p) bottom_height 2;
    Draw.line COLOR_PIPE_SHINE (x p + 5, bottom_y)
      (x p + 5, bottom_y + bottom_height) 1 ].

End WithLib.
End Pipe.

(** ** Input events

    What [pygame.event.get()] hands to [handle_input]: the event kinds the
    function looks at, and for a key press the key. *)

Inductive Key : Type := K_SPACE | K_UP | K_w | K_ESCAPE | K_other.

Inductive Event : Type :=
| QUIT
| KEYDOWN (key : Key)
| MOUSEBUTTONDOWN
| OTHER_EVENT.

(** ** Game *)

Module Game.
Section WithLib.
Context {L : PyLib}.

(** The attributes of [Game] that the simulation reads or writes (the
    screen, the clock and the fonts belong to the presentation), and the
    state of the generator of [random]. *)
Record t : Type := {
  state : GameState;
  score : Z;
  high_score : Z;
  particles : list Particle.t;
  pipe_spawn_timer : float;
  pipe_spawn_interval : float;
  bird : Bird.t;
  pipes : list Pipe.t;
  particle_system : list Particle.t;
  shake_intensity : float;
  frame_count : Z;
  random : rng
}.

(** Assignments to one attribute. *)
Definition set_state (v : GameState) (g : t) : t :=
  {| state := v; score := score g; high_score := high_score g;
     particles := particles g; pipe_spawn_timer := pipe_spawn_timer g;
     pipe_spawn_interval := pipe_spawn_interval g; bird := bird g;
     pipes := pipes g; particle_system := particle_system g;
     shake_intensity := shake_intensity g; frame_count := frame_count g;
     random := random g |}.

Definition set_score (v : Z) (g : t) : t :=
  {| state := state g; score := v; high_score := high_score g;
     particles := particles g; pipe_spawn_timer := pipe_spawn_timer g;
     pipe_spawn_interval := pipe_spawn_interval g; bird := bird g;
     pipes := pipes g; particle_system := particle_system g;
     shake_intensity := shake_intensity g; frame_count := frame_count g;
     random := random g |}.

Definition set_high_score (v : Z) (g : t) : t :=
  {| state := state g; score := score g; high_score := v;
     particles := particles g; pipe_spawn_timer := pipe_spawn_timer g;
     pipe_spawn_interval := pipe_spawn_interval g; bird := bird g;
     pipes := pipes g; particle_system := particle_system g;
     shake_intensity := shake_intensity g; frame_count := frame_count g;
     random := random g |}.

Definition set_particles (v : list Particle.t) (g : t) : t :=
  {| state := state g; score := score g; high_score := high_score g;
     particles := v; pipe_spawn_timer := pipe_spawn_timer g;
     pipe_spawn_interval := pipe_spawn_interval g; bird := bird g;
     pipes := pipes g; particle_system := particle_system g;
     shake_intensity := shake_intensity g; frame_count := frame_count g;
     random := random g |}.

Definition set_pipe_spawn_timer (v : float) (g : t) : t :=
  {| state := state g; score := score g; high_score := high_score g;
     particles := particles g; pipe_spawn_timer := v;
     pipe_spawn_interval := pipe_spawn_interval g; bird := bird g;
     pipes := pipes g; particle_system := particle_system g;
     shake_intensity := shake_intensity g; frame_count := frame_count g;
     random := random g |}.

Definition set_bird (v : Bird.t) (g : t) : t :=
  {| state := state g; score := score g; high_score := high_score g;
     particles := particles g; pipe_spawn_timer := pipe_spawn_timer g;
     pipe_spawn_interval := pipe_spawn_interval g; bird := v;
     pipes := pipes g; particle_system := particle_system g;
     shake_intensity := shake_intensity g; frame_count := frame_count g;
     random := random g |}.

Definition set_pipes (v : list Pipe.t) (g : t) : t :=
  {| state := state g; score := score g; high_score := high_score g;
     particles := particles g; pipe_spawn_timer := pipe_spawn_timer g;
     pipe_spawn_interval := pipe_spawn_interval g; bird := bird g;
     pipes := v; particle_system := particle_system g;
     shake_intensity := shake_intensity g; frame_count := frame_count g;
     random := random g |}.

Definition set_shake_intensity (v : float) (g : t) : t :=
  {| state := state g; score := score g; high_score := high_score g;
     particles := particles g; pipe_spawn_timer := pipe_spawn_timer g;
     pipe_spawn_interval := pipe_spawn_interval g; bird := bird g;
     pipes := pipes g; particle_system := particle_system g;
     shake_intensity := v; frame_count := frame_count g;
     random := random g |}.

Definition set_random (v : rng) (g : t) : t :=
  {| state := state g; score := score g; high_score := high_score g;
     particles := particles g; pipe_spawn_timer := pipe_spawn_timer g;
     pipe_spawn_interval := pipe_spawn_interval g; bird := bird g;
     pipes := pipes g; particle_system := particle_system g;
     shake_intensity := shake_intensity g; frame_count := frame_count g;
     random := v |}.

Definition reset_game (g : t) : t :=
  {| state := state g;
     score := 0;
     high_score := high_score g;
     particles := particles g;
     pipe_spawn_timer := pipe_spawn_interval g;
     pipe_spawn_interval := pipe_spawn_interval g;
     bird := Bird.__init__ (SCREEN_WIDTH / 4)
                            (float_of_int (SCREEN_HEIGHT / 2));
     pipes := [];
     particle_system := [];
     shake_intensity := 0;
     frame_count := 0;
     random := random g |}.

(** [Game()]: the attributes set by the constructor, then [reset_game],
    which gives the remaining ones their first value (the values written
    for them here are overwritten by it).  The argument is the state the
    generator of [random] is in. *)
Definition __init__ (r : rng) : t :=
  reset_game
    {| state := MENU; score := 0; high_score := 0; particles := [];
       pipe_spawn_timer := 0; pipe_spawn_interval := 2.0;
       bird := Bird.__init__ 0 0; pipes := []; particle_system := [];
       shake_intensity := 0; frame_count := 0; random := r |}.

Definition spawn_pipe (g : t) : t :=
  let '(gap_y, r) := randint MIN_PIPE_HEIGHT MAX_PIPE_HEIGHT (random g) in
  set_pipes (pipes g ++ [Pipe.__init__ (SCREEN_WIDTH + 50) gap_y])
    (set_random r g).

(** [self.bird.flap()]. *)
Definition bird_flap (g : t) : t :=
  let '(b, r) := Bird.flap (bird g) (random g) in
  set_bird b (set_random r g).

(** The body of the loop of [handle_input] for an event that is not
    [QUIT]. *)
Definition handle_event (e : Event) (g : t) : t :=
  match e with
  | KEYDOWN key =>
      let g :=
        match key with
        | K_SPACE | K_UP | K_w =>
            match state g with
            | MENU => reset_game (set_state PLAYING g)
            | PLAYING => bird_flap g
            | GAME_OVER => set_state MENU g
            | PAUSED => g
            end
        | _ => g
        end in
      match key with
      | K_ESCAPE =>
          match state g with
          | PLAYING => set_state PAUSED g
          | PAUSED => set_state PLAYING g
          | _ => g
          end
      | _ => g
      end
  | MOUSEBUTTONDOWN =>
      match state g with
      | MENU | GAME_OVER => reset_game (set_state PLAYING g)
      | PLAYING => bird_flap g
      | PAUSED => g
      end
  | _ => g
  end.

(** [handle_input] on the events of one frame: [QUIT] returns [False] at
    once, leaving the events behind it unread. *)
Fixpoint handle_input (events : list Event) (g : t) : bool * t :=
  match events with
  | [] => (true, g)
  | QUIT :: _ => (false, g)
  | e :: rest => handle_input rest (handle_event e g)
  end.

(** One round of the loop [for _ in range(10)] of
    [create_collision_particles]: the draws in the order Python makes them
    (angle, speed, the three colour components, size). *)
Definition collision_particle (px py : float)
  (st : list Particle.t * rng) : list Particle.t * rng :=
  let '(ps, g) := st in
  let '(angle, g) := uniform 0 (2 * math_pi) g in
  let '(speed, g) := uniform 3 8 g in
  let '(cr, g) := randint 200 255 g in
  let '(cg, g) := randint 100 200 g in
  let '(cb, g) := randint 50 150 g in
  let '(sz, g) := uniform 3 6 g in
  (ps ++ [ {| Particle.x := px; Particle.y := py;
              Particle.vx := (math_cos angle * speed)%float;
              Particle.vy := (math_sin angle * speed)%float;
              Particle.size := sz;
              Particle.lifetime := 0.8;
              Particle.color := (cr, cg, cb) |} ], g).

Definition create_collision_particles (px py : float) (g : t) : t :=
  let '(ps, r) :=
    Nat.iter 10 (collision_particle px py) (particles g, random g) in
  set_particles ps (set_random r g).

Definition score_particle (px py : float)
  (st : list Particle.t * rng) : list Particle.t * rng :=
  let '(ps, g) := st in
  let '(angle, g) := uniform (- math_pi / 2) (- math_pi / 4) g in
  let '(speed, g) := uniform 2 4 g in
  let '(sz, g) := uniform 2 4 g in
  (ps ++ [ {| Particle.x := px; Particle.y := py;
              Particle.vx := (math_cos angle * speed)%float;
              Particle.vy := (math_sin angle * speed)%float;
              Particle.size := sz;
              Particle.lifetime := 1.0;
              Particle.color := COLOR_SCORE |} ], g).

Definition create_score_particles (px py : float) (g : t) : t :=
  let '(ps, r) :=
    Nat.iter 5 (score_particle px py) (particles g, random g) in
  set_particles ps (set_random r g).

(** The four statements [update] runs when it finds a collision, with a
    pipe or with the ground or ceiling. *)
Definition game_over (g : t) : t :=
  let g := set_state GAME_OVER g in
  let g := set_shake_intensity 0.1 g in
  let g := create_collision_particles
             (float_of_int (Bird.x (bird g))) (Bird.y (bird g)) g in
  if score g >? high_score g then set_high_score (score g) g else g.

(** [update], block by block.  First the bird and the pipes move and the
    pipes that left the screen are dropped. *)
Definition move (dt : float) (g : t) : t :=
  let g := set_bird (Bird.update dt (bird g)) g in
  let g := set_pipes (map (Pipe.update dt) (pipes g)) g in
  set_pipes (filter (fun p => negb (Pipe.is_off_screen p)) (pipes g)) g.

(** "Spawn new pipes". *)
Definition spawn (dt : float) (g : t) : t :=
  let g := set_pipe_spawn_timer (pipe_spawn_timer g - dt) g in
  if (pipe_spawn_timer g <=? 0)%float
  then set_pipe_spawn_timer (pipe_spawn_interval g) (spawn_pipe g)
  else g.

(** "Check collisions with pipes": the loop over [self.pipes]. *)
Definition check_pipes (g : t) : t :=
  fold_left
    (fun g p => if Pipe.collides_with p (bird g) then game_over g else g)
    (pipes g) g.

(** The test of "Check collision with ground or ceiling". *)
Definition out_of_bounds (b : Bird.t) : bool :=
  (Bird.y b - float_of_int (Bird.size b) <=? 0)%float
  || (float_of_int SCREEN_HEIGHT <=? Bird.y b + float_of_int (Bird.size b))%float.

Definition check_bounds (g : t) : t :=
  if out_of_bounds (bird g) then game_over g else g.

(** The test of "Check if bird passed a pipe". *)
Definition just_passed (bird_x : Z) (p : Pipe.t) : bool :=
  negb (Pipe.passed p) && (Pipe.x p + Pipe.width p <? bird_x).

(** The scoring loop over [self.pipes]: it returns the pipes as it leaves
    them and the game with the score and the particles it added. *)
Fixpoint check_passed (ps : list Pipe.t) (g : t) : list Pipe.t * t :=
  match ps with
  | [] => ([], g)
  | p :: rest =>
      if just_passed (Bird.x (bird g)) p then
        let g := set_score (score g + 1) g in
        let g := create_score_particles
                   (float_of_int (SCREEN_WIDTH / 2)) (float_of_int 50) g in
        let '(rest', g) := check_passed rest g in
        (Pipe.set_passed p :: rest', g)
      else
        let '(rest', g) := check_passed rest g in
        (p :: rest', g)
  end.

(** The block under [if self.state == GameState.PLAYING]. *)
Definition playing (dt : float) (g : t) : t :=
  let g := move dt g in
  let g := spawn dt g in
  let g := check_pipes g in
  let g := check_bounds g in
  let '(ps, g) := check_passed (pipes g) g in
  set_pipes ps g.

(** "Update particles" and "Update screen shake", run in every mode. *)
Definition decay (dt : float) (g : t) : t :=
  let g := set_particles (Particle.update_all dt (particles g)) g in
  set_shake_intensity (shake_intensity g * 0.95) g.

Definition update (dt : float) (g : t) : t :=
  decay dt (match state g with PLAYING => playing dt g | _ => g end).

(** One round of the loop of [run]: [handle_input], then [update] (the
    drawing changes nothing of the game). *)
Definition frame (events : list Event) (dt : float) (g : t) : bool * t :=
  let '(running, g) := handle_input events g in (running, update dt g).

(** "Apply screen shake effect", the last block of [draw]: with a positive
    shake the frame is blitted at an offset drawn by two calls of
    [random.randint], otherwise nothing is drawn from the generator.  The
    result is the offset, if any, and the generator afterwards; [None] when
    [int(...)] raises. *)
Definition shake_offset (g : t) : option (option (Z * Z) * rng) :=
  if (0 <? shake_intensity g)%float then
    match py_int (shake_intensity g * 5) with
    | Some n =>
        let '(shake_x, r) := randint (- n) n (random g) in
        let '(shake_y, r) := randint (- n) n r in
        Some (Some (shake_x, shake_y), r)
    | None => None
    end
  else Some (None, random g).

(** What [draw] leaves of the game: its attributes, and the generator
    after the draws of the shake. *)
Definition draw (g : t) : option t :=
  match shake_offset g with
  | Some (_, r) => Some (set_random r g)
  | None => None
  end.

End WithLib.
End Game.

(** [run], without the drawing and the exit: the frames are given as the
    events and the [dt] of each, and the loop ends after the frame in which
    [handle_input] returned [False]. *)
Fixpoint run {L : PyLib} (frames : list (list Event * float)) (g : Game.t)
  : Game.t :=
  match frames with
  | [] => g
  | (events, dt) :: rest =>
      let '(running, g') := Game.frame events dt g in
      if running then run rest g' else g'
  end.

(** ** A deterministic instance of the libraries

    For running the game on concrete inputs: the generator is a counter,
    [uniform a b] answers [a] (what [a + (b - a) * random()] is when
    [random()] is [0.0]), [randint a b] answers [a + n mod (b - a + 1)] for
    the counter [n], [pygame.Rect] truncates a float toward zero (the C cast
    pygame applies), and [math.cos] and [math.sin] are given at the two
    angles this generator ever draws, [0] and [-pi/2]. *)

Module TestLib.

(** The integer part of a finite float; [0] for infinities and NaN, which
    the cast does not define. *)
Definition trunc (f : float) : Z :=
  match Prim2SF f with
  | S754_finite s m e =>
      let n := if 0 <=? e then Z.shiftl (Zpos m) e
               else Z.shiftr (Zpos m) (- e) in
      if s then - n else n
  | _ => 0
  end.

Definition test_uniform (a b : float) (n : Z) : float * Z := (a, n + 1).

Definition test_randint (a b : Z) (n : Z) : Z * Z :=
  (a + n mod (b - a + 1), n + 1).

Definition test_cos (a : float) : float :=
  if (a =? 0)%float then 1%float else 6.123233995736766e-17%float.

Definition test_sin (a : float) : float :=
  if (a =? 0)%float then 0%float else (-1)%float.

Lemma test_randint_range (a b n : Z) :
  a <= b -> a <= fst (test_randint a b n) <= b.
Proof.
  intros Hab. unfold test_randint. simpl.
  pose proof (Z.mod_pos_bound n (b - a + 1) ltac:(lia)). lia.
Qed.

#[export] Instance lib : PyLib := {|
  rng := Z;
  uniform := test_uniform;
  randint := test_randint;
  randint_range := test_randint_range;
  math_cos := test_cos;
  math_sin := test_sin;
  rect_int := trunc
|}.

End TestLib.

(** ** Vocabulary of the properties *)

Section Vocabulary.
Context {L : PyLib}.

(** The particles [flap] emits start at the bird and live 0.5 s. *)
Definition flap_born (b : Bird.t) (p : Particle.t) : Prop :=
  Particle.x p = float_of_int (Bird.x b) /\ Particle.y p = Bird.y b
  /\ Particle.lifetime p = 0.5%float.

(** The particles of a collision burst start at the bird and live 0.8 s. *)
Definition crash_born (b : Bird.t) (p : Particle.t) : Prop :=
  Particle.x p = float_of_int (Bird.x b) /\ Particle.y p = Bird.y b
  /\ Particle.lifetime p = 0.8%float.

(** The commands of the input adapter: Activate comes from the key group
    SPACE, UP, W or from a pointer press, Pause/Resume from ESCAPE. *)
Definition activate_key (k : Key) : bool :=
  match k with K_SPACE | K_UP | K_w => true | _ => false end.

Definition is_activate (e : Event) : bool :=
  match e with
  | KEYDOWN k => activate_key k
  | MOUSEBUTTONDOWN => true
  | _ => false
  end.

Definition is_pause (e : Event) : bool :=
  match e with KEYDOWN K_ESCAPE => true | _ => false end.

(** The game as the collision tests of a Playing tick find it: the bird and
    the pipes have moved and the spawn timer has been served. *)
Definition moved (dt : float) (g : Game.t) : Game.t :=
  Game.spawn dt (Game.move dt g).

(** The pipes among [ps] that the bird [b] collides with. *)
Definition hits (b : Bird.t) (ps : list Pipe.t) : nat :=
  length (filter (fun p => Pipe.collides_with p b) ps).

(** The collisions a Playing tick finds: one per colliding pipe, and one
    more when the bird is at the ceiling or the ground. *)
Definition triggers (g : Game.t) : nat :=
  (hits (Game.bird g) (Game.pipes g)
   + if Game.out_of_bounds (Game.bird g) then 1 else 0)%nat.

(** What the scoring loop does to one pipe. *)
Definition mark_passed (bird_x : Z) (p : Pipe.t) : Pipe.t :=
  if Game.just_passed bird_x p then Pipe.set_passed p else p.

(** The points the scoring loop gives for the pipes [ps]. *)
Definition points (bird_x : Z) (ps : list Pipe.t) : nat :=
  length (filter (Game.just_passed bird_x) ps).

(** The pipes that survive the move of a tick: moved, and still on screen. *)
Definition advanced (dt : float) (ps : list Pipe.t) : list Pipe.t :=
  filter (fun p => negb (Pipe.is_off_screen p)) (map (Pipe.update dt) ps).

(** The rectangle [r] overlaps neither stub of the pipe [p]: it is beside
    the pipe or within its gap. *)
Definition clear_of (r : Rect.t) (p : Pipe.t) : Prop :=
  Rect.right r <= Pipe.x p
  \/ Pipe.x p + Pipe.width p <= Rect.left r
  \/ (Pipe.gap_y p <= Rect.top r
      /\ Rect.bottom r <= Pipe.gap_y p + PIPE_GAP).

(** The bird's square lies strictly between the ceiling and the ground. *)
Definition strictly_inside (b : Bird.t) : Prop :=
  (0 <? Bird.y b - float_of_int (Bird.size b))%float = true
  /\ (Bird.y b + float_of_int (Bird.size b) <? float_of_int SCREEN_HEIGHT)%float
     = true.




(** The tick length of 60 ticks per second. *)
Definition dt60 : float := (1 / 60)%float.


(** What a Playing tick does to a pipe that stays on screen: it moves, then
    the scoring loop looks at it. *)
Definition pipe_tick (bird_x : Z) (dt : float) (p : Pipe.t) : Pipe.t :=
  mark_passed bird_x (Pipe.update dt p).

(** The pipe after [n] Playing ticks. *)
Fixpoint pipe_after (bird_x : Z) (dt : float) (n : nat) (p : Pipe.t) : Pipe.t :=
  match n with
  | O => p
  | S k => pipe_tick bird_x dt (pipe_after bird_x dt k p)
  end.

(** Whether tick [n + 1] of the pipe's life gives a point for it. *)
Definition credit (bird_x : Z) (dt : float) (p : Pipe.t) (n : nat) : bool :=
  Game.just_passed bird_x (Pipe.update dt (pipe_after bird_x dt n p)).

(** The trailing edge of a pipe. *)
Definition trailing (p : Pipe.t) : Z := Pipe.x p + Pipe.width p.

(** The games the program can be in: the one the constructor builds, and
    what [handle_input] and [update] make of a game it can be in. *)
Inductive reachable : Game.t -> Prop :=
| reach_init : forall r, reachable (Game.__init__ r)
| reach_input : forall events g,
    reachable g -> reachable (snd (Game.handle_input events g))
| reach_update : forall dt g, reachable g -> reachable (Game.update dt g).

(** The pipes of [ps] that a tick keeps: those still on screen once
    moved. *)
Definition kept (dt : float) (ps : list Pipe.t) : list Pipe.t :=
  filter (fun p => negb (Pipe.is_off_screen (Pipe.update dt p))) ps.

(** On every game the program can be in, the bird is at x = 100, every pipe
    is 50 wide, and a pipe that is not passed has its trailing edge at or
    right of the bird. *)
Definition scored_or_ahead (g : Game.t) : Prop :=
  Bird.x (Game.bird g) = 100
  /\ forall p, In p (Game.pipes g) ->
               Pipe.width p = 50
               /\ (Pipe.passed p = true \/ 100 <= trailing p).

Definition is_quit (e : Event) : bool :=
  match e with QUIT => true | _ => false end.

(** The games the program can be in, the drawing of each frame counted:
    the game the constructor builds, and what [handle_input], [update] and
    [draw] make of a game it can be in. *)
Inductive played : Game.t -> Prop :=
| played_init : forall r, played (Game.__init__ r)
| played_input : forall events g,
    played g -> played (snd (Game.handle_input events g))
| played_update : forall dt g, played g -> played (Game.update dt g)
| played_draw : forall g g', played g -> Game.draw g = Some g' -> played g'.

(** A pipe as the game makes and keeps them: 50 wide, its gap in the closed
    range, on a 4 px grid from its spawn place leftwards, its trailing edge
    not left of the screen. *)
Definition pipe_ok (p : Pipe.t) : Prop :=
  Pipe.width p = 50
  /\ MIN_PIPE_HEIGHT <= Pipe.gap_y p <= MAX_PIPE_HEIGHT
  /\ 0 <= trailing p
  /\ Pipe.x p <= SCREEN_WIDTH + 50
  /\ (SCREEN_WIDTH + 50 - Pipe.x p) mod 4 = 0.

(** The pipes stand in the list from left to right. *)
Definition left_to_right (ps : list Pipe.t) : Prop :=
  StronglySorted (fun p q => Pipe.x p < Pipe.x q) ps.

(** The shake [k] ticks after a collision set it to 0.1. *)
Definition shake_level (k : nat) : float :=
  Nat.iter k (fun s => (s * 0.95)%float) 0.1%float.

(** A particle of a score burst: at the place given, gold, 1.0 s to live,
    thrown at some angle with some speed. *)
Definition score_born (px py : float) (p : Particle.t) : Prop :=
  Particle.x p = px /\ Particle.y p = py
  /\ Particle.lifetime p = 1.0%float /\ Particle.color p = COLOR_SCORE
  /\ exists angle speed,
       Particle.vx p = (math_cos angle * speed)%float
       /\ Particle.vy p = (math_sin angle * speed)%float.

(** A particle of a collision burst: at the place given, 0.8 s to live, in
    a warm colour, thrown at some angle with some speed. *)
Definition collision_born (px py : float) (p : Particle.t) : Prop :=
  Particle.x p = px /\ Particle.y p = py
  /\ Particle.lifetime p = 0.8%float
  /\ (let '(cr, cg, cb) := Particle.color p in
      200 <= cr <= 255 /\ 100 <= cg <= 200 /\ 50 <= cb <= 150)
  /\ exists angle speed,
       Particle.vx p = (math_cos angle * speed)%float
       /\ Particle.vy p = (math_sin angle * speed)%float.

(** What holds of every game the program can be in. *)
Definition session_ok (g : Game.t) : Prop :=
  Bird.x (Game.bird g) = 100 /\ Bird.size (Game.bird g) = 16
  /\ Game.pipe_spawn_interval g = 2.0%float
  /\ Game.frame_count g = 0 /\ Game.particle_system g = []
  /\ 0 <= Game.score g /\ 0 <= Game.high_score g
  /\ Forall pipe_ok (Game.pipes g) /\ left_to_right (Game.pipes g)
  /\ (Game.shake_intensity g = 0%float
      \/ exists k, Game.shake_intensity g = shake_level k).

(** One pass over the first [n] shake levels from [s] on: each is positive
    and so small that [int] of five times it is 0. *)
Fixpoint levels_small (n : nat) (s : float) : bool :=
  match n with
  | O => true
  | S k =>
      (0 <? s)%float
      && match py_int (s * 5) with Some 0 => true | _ => false end
      && levels_small k (s * 0.95)%float
  end.

(** A command that stays between the ceiling and the ground, a rectangle
    being at least as tall as the least stub. *)
Definition on_canvas (c : Draw.cmd) : Prop :=
  match c with
  | Draw.rect _ _ y _ h _ =>
      0 <= y /\ y + h <= SCREEN_HEIGHT /\ MIN_PIPE_HEIGHT <= h
  | Draw.line _ (_, y1) (_, y2) _ =>
      0 <= y1 <= SCREEN_HEIGHT /\ 0 <= y2 <= SCREEN_HEIGHT
  | Draw.circle _ _ _ => True
  end.

End Vocabulary.

(** ** Concrete games

    Runs of the game on the deterministic instance, from the constructor. *)

Module Scenario.
Import TestLib.

(** The frame that starts a run: Activate from the menu, one tick. *)
Definition start : list Event * float := ([KEYDOWN K_SPACE], dt60).
Definition idle : list Event * float := ([], dt60).
Definition flap : list Event * float := ([KEYDOWN K_SPACE], dt60).

(** The game the constructor builds, in the menu. *)
Definition menu : Game.t := Game.__init__ 0.

(** A fresh run: the game just after Activate in the menu. *)
Definition fresh : Game.t :=
  snd (Game.handle_input [KEYDOWN K_SPACE] menu).

(** A fresh run whose bird has been put at [y] with velocity [v]. *)
Definition bird_at (y v : float) : Game.t :=
  Game.set_bird
    {| Bird.x := 100; Bird.y := y; Bird.velocity := v; Bird.rotation := 0;
       Bird.size := 16; Bird.flap_cooldown := 0; Bird.particles := [] |}
    fresh.

(** A game that has ended: a fresh run left alone until the bird has
    reached the ground, 38 ticks later. *)
Definition crashed : Game.t := run (repeat idle 38) fresh.

(** A run whose bird is at the ceiling, under a pipe it overlaps. *)
Definition pinned : Game.t :=
  Game.set_pipes [Pipe.__init__ 100 200] (bird_at 0 0).

(** A run whose bird flies in the gap of a pipe. *)
Definition threading : Game.t :=
  Game.set_pipes [Pipe.__init__ 100 250] fresh.

(** A paused run. *)
Definition paused : Game.t := Game.set_state PAUSED fresh.

(** A bird on cooldown and one that is not. *)
Definition hot_bird : Bird.t :=
  {| Bird.x := 100; Bird.y := 300; Bird.velocity := 0; Bird.rotation := 0;
     Bird.size := 16; Bird.flap_cooldown := 0.05; Bird.particles := [] |}.

Definition cold_bird : Bird.t := Bird.__init__ 100 300.

(** A player who flaps every 44 frames holds the bird between y = 203 and
    y = 300.  [hover n] is the first [n] frames of a fresh run played that
    way: a flap in frames 2, 46, 90, and so on, and no other event. *)
Definition hover (n : nat) : list (list Event * float) :=
  map (fun k => if Nat.eqb (k mod 44) 1 then flap else idle) (seq 0 n).

(** A whole game from the constructor, with the generator started at 380:
    Activate, flaps in frames 2, 46, 90, 134, 178 and 203, nothing else.
    The pipe spawned in frame 121 has its gap at 94; the bird flies in the
    gap until frame 221 and rises into the top stub in frame 222, the frame
    in which the trailing edge of the pipe (at 96) falls behind it. *)
Definition last_flight (n : nat) : list (list Event * float) :=
  map (fun k => if Nat.eqb k 0 then start
                else if existsb (Nat.eqb k) [1; 45; 89; 133; 177; 202]%nat
                     then flap else idle) (seq 0 n).

Definition before_crash : Game.t :=
  run (last_flight 221) (Game.__init__ 380).

(** A run with its first pipe, just spawned. *)
Definition first_pipe : Game.t := run (hover 121) fresh.

(** A run with a pipe about to leave the screen and one in mid-screen. *)
Definition leaving : Game.t :=
  Game.set_pipes [Pipe.__init__ (-48) 200; Pipe.__init__ 300 200] fresh.

(** A flap particle with [life] seconds to live, and three particle
    objects, the last two with the same fields. *)
Definition spark (life : float) : Particle.t :=
  {| Particle.x := 100; Particle.y := 300; Particle.vx := 2;
     Particle.vy := 0; Particle.size := 0.5; Particle.lifetime := life;
     Particle.color := (255, 200, 87) |}.

Definition sparks : list Particle.obj :=
  [ {| Particle.ident := 0; Particle.val := spark 0.5 |};
    {| Particle.ident := 1; Particle.val := spark 0.01 |};
    {| Particle.ident := 2; Particle.val := spark 0.01 |} ].

End Scenario.

(** * Properties *)

(** ** Floats *)

Lemma SFcompare_antisym (a b : spec_float) :
  SFcompare b a = option_map CompOpp (SFcompare a b).
Proof.
  destruct a as [sa|sa| |sa ma ea], b as [sb|sb| |sb mb eb];
    try destruct sa; try destruct sb; simpl; try reflexivity;
    rewrite (Z.compare_antisym ea eb);
    destruct (ea ?= eb) eqn:E; simpl; try reflexivity;
    rewrite (Pos.compare_cont_antisym ma mb Eq); simpl;
    destruct (Pos.compare_cont Eq ma mb); reflexivity.
Qed.

(** What Python's [a < b] answers [True] for, [b <= a] answers [False]
    for. *)
Lemma float_lt_not_le (a b : float) :
  (a <? b)%float = true -> (b <=? a)%float = false.
Proof.
  rewrite ltb_spec, leb_spec. unfold SFltb, SFleb.
  rewrite (SFcompare_antisym (Prim2SF a) (Prim2SF b)).
  destruct (SFcompare (Prim2SF a) (Prim2SF b)) as [[ | | ]|]; simpl;
    intros H; solve [ discriminate H | reflexivity ].
Qed.

(** ** Particle bursts *)

Section Bursts.
Context {A R : Type}.
Variable body : list A * R -> list A * R.
Variable P : A -> Prop.
Hypothesis body_appends :
  forall ps r, exists p r', body (ps, r) = (ps ++ [p], r') /\ P p.

(** A loop [for _ in range(n)] whose body appends one element leaves the
    list it started from, followed by [n] new elements. *)
Lemma iter_appends (n : nat) (ps : list A) (r : R) :
  exists new r',
    Nat.iter n body (ps, r) = (ps ++ new, r')
    /\ length new = n /\ Forall P new.
Proof.
  induction n as [|n IH].
  - exists [], r. simpl. rewrite app_nil_r. auto.
  - destruct IH as (new & r1 & E & Hlen & Hall).
    destruct (body_appends (ps ++ new) r1) as (p & r2 & Ep & Hp).
    exists (new ++ [p]), r2. simpl. rewrite E, Ep.
    rewrite <- app_assoc, length_app, Hlen. simpl.
    repeat split; [ lia | ].
    apply Forall_app. auto.
Qed.
End Bursts.

Section BirdFacts.
Context {L : PyLib}.

Lemma flap_particle_appends (b : Bird.t) (ps : list Particle.t) (r : rng) :
  exists p r', Bird.flap_particle b (ps, r) = (ps ++ [p], r') /\ flap_born b p.
Proof.
  unfold Bird.flap_particle.
  destruct (uniform 0 (2 * math_pi) r) as [angle r1].
  destruct (uniform 2 5 r1) as [speed r2].
  destruct (uniform 2 4 r2) as [sz r3].
  eexists. eexists. split; [ reflexivity | ].
  unfold flap_born. simpl. auto.
Qed.

(** C7. [Bird.flap] is a no-op while the cooldown is positive: the bird
    (velocity, cooldown, particle list and all) and the generator are
    returned as they were.  When the cooldown is [<= 0] it sets the
    velocity to exactly [FLAP_POWER = -9], the cooldown to [0.1], appends
    exactly 5 particles to the bird's own list and leaves the rest of the
    bird alone. *)
Theorem flap_cooldown_gate (b : Bird.t) (r : rng) :
  ((0 <? Bird.flap_cooldown b)%float = true -> Bird.flap b r = (b, r))
  /\ ((Bird.flap_cooldown b <=? 0)%float = true ->
      let b' := fst (Bird.flap b r) in
      Bird.velocity b' = (-9)%float
      /\ Bird.flap_cooldown b' = 0.1%float
      /\ (exists new, Bird.particles b' = Bird.particles b ++ new
                      /\ length new = 5%nat /\ Forall (flap_born b) new)
      /\ Bird.x b' = Bird.x b /\ Bird.y b' = Bird.y b
      /\ Bird.rotation b' = Bird.rotation b /\ Bird.size b' = Bird.size b).
Proof.
  split; intros H; unfold Bird.flap.
  - rewrite (float_lt_not_le _ _ H). reflexivity.
  - rewrite H.
    destruct (iter_appends (Bird.flap_particle b) (flap_born b)
                (flap_particle_appends b) 5 (Bird.particles b) r)
      as (new & r' & E & Hlen & Hall).
    rewrite E. simpl. repeat split; try reflexivity.
    exists new. auto.
Qed.

End BirdFacts.

(** ** The blocks of [Game.update] *)

Ltac setters :=
  unfold Game.set_state, Game.set_score, Game.set_high_score,
    Game.set_particles, Game.set_pipe_spawn_timer, Game.set_bird,
    Game.set_pipes, Game.set_shake_intensity, Game.set_random in *;
  cbn [Game.state Game.score Game.high_score Game.particles
       Game.pipe_spawn_timer Game.pipe_spawn_interval Game.bird Game.pipes
       Game.particle_system Game.shake_intensity Game.frame_count
       Game.random] in *.

(** Reading an attribute after assignments, without unfolding the game. *)
Ltac proj :=
  cbn [Game.state Game.score Game.high_score Game.particles
       Game.pipe_spawn_timer Game.pipe_spawn_interval Game.bird Game.pipes
       Game.particle_system Game.shake_intensity Game.frame_count
       Game.random Game.set_state Game.set_score Game.set_high_score
       Game.set_particles Game.set_pipe_spawn_timer Game.set_bird
       Game.set_pipes Game.set_shake_intensity Game.set_random] in *.

Section GameFacts.
Context {L : PyLib}.

(** Two games with the same attributes are the same game. *)
Lemma game_ext (g g' : Game.t) :
  Game.state g = Game.state g' ->
  Game.score g = Game.score g' ->
  Game.high_score g = Game.high_score g' ->
  Game.particles g = Game.particles g' ->
  Game.pipe_spawn_timer g = Game.pipe_spawn_timer g' ->
  Game.pipe_spawn_interval g = Game.pipe_spawn_interval g' ->
  Game.bird g = Game.bird g' ->
  Game.pipes g = Game.pipes g' ->
  Game.particle_system g = Game.particle_system g' ->
  Game.shake_intensity g = Game.shake_intensity g' ->
  Game.frame_count g = Game.frame_count g' ->
  Game.random g = Game.random g' ->
  g = g'.
Proof.
  destruct g, g'; cbn; intros; subst; reflexivity.
Qed.

Lemma collision_particle_appends (b : Bird.t) (ps : list Particle.t) (r : rng) :
  exists p r',
    Game.collision_particle (float_of_int (Bird.x b)) (Bird.y b) (ps, r)
    = (ps ++ [p], r') /\ crash_born b p.
Proof.
  unfold Game.collision_particle.
  destruct (uniform 0 (2 * math_pi) r) as [angle r1].
  destruct (uniform 3 8 r1) as [speed r2].
  destruct (randint 200 255 r2) as [cr r3].
  destruct (randint 100 200 r3) as [cg r4].
  destruct (randint 50 150 r4) as [cb r5].
  destruct (uniform 3 6 r5) as [sz r6].
  eexists. eexists. split; [ reflexivity | ].
  unfold crash_born. simpl. auto.
Qed.

Lemma score_particle_appends (px py : float) (ps : list Particle.t) (r : rng) :
  exists p r', Game.score_particle px py (ps, r) = (ps ++ [p], r') /\ True.
Proof.
  unfold Game.score_particle.
  destruct (uniform (- math_pi / 2) (- math_pi / 4) r) as [angle r1].
  destruct (uniform 2 4 r1) as [speed r2].
  destruct (uniform 2 4 r2) as [sz r3].
  eexists. eexists. split; [ reflexivity | exact I ].
Qed.

(** [game_over] as one assignment to the whole game: the mode, the shake,
    ten more particles at the end of the free pool, the best score raised
    to the score when the score is greater; the generator has advanced. *)
Lemma game_over_eq (g : Game.t) :
  exists new r,
    Game.game_over g =
      {| Game.state := GAME_OVER;
         Game.score := Game.score g;
         Game.high_score := Z.max (Game.high_score g) (Game.score g);
         Game.particles := Game.particles g ++ new;
         Game.pipe_spawn_timer := Game.pipe_spawn_timer g;
         Game.pipe_spawn_interval := Game.pipe_spawn_interval g;
         Game.bird := Game.bird g;
         Game.pipes := Game.pipes g;
         Game.particle_system := Game.particle_system g;
         Game.shake_intensity := 0.1;
         Game.frame_count := Game.frame_count g;
         Game.random := r |}
    /\ length new = 10%nat /\ Forall (crash_born (Game.bird g)) new.
Proof.
  destruct (iter_appends
              (Game.collision_particle (float_of_int (Bird.x (Game.bird g)))
                 (Bird.y (Game.bird g)))
              (crash_born (Game.bird g))
              (collision_particle_appends (Game.bird g)) 10
              (Game.particles g) (Game.random g))
    as (new & r & E & Hlen & Hall).
  exists new, r. split; [ | auto ].
  unfold Game.game_over, Game.create_collision_particles.
  cbn [Game.set_state Game.set_shake_intensity Game.bird Game.particles
       Game.random].
  rewrite E. setters.
  destruct (Z.gtb_spec (Game.score g) (Game.high_score g)); setters;
    f_equal; lia.
Qed.

(** Several collisions in a row: what one does, with ten particles each. *)
Lemma iter_game_over_eq (k : nat) (g : Game.t) :
  exists new r,
    Nat.iter (S k) Game.game_over g =
      {| Game.state := GAME_OVER;
         Game.score := Game.score g;
         Game.high_score := Z.max (Game.high_score g) (Game.score g);
         Game.particles := Game.particles g ++ new;
         Game.pipe_spawn_timer := Game.pipe_spawn_timer g;
         Game.pipe_spawn_interval := Game.pipe_spawn_interval g;
         Game.bird := Game.bird g;
         Game.pipes := Game.pipes g;
         Game.particle_system := Game.particle_system g;
         Game.shake_intensity := 0.1;
         Game.frame_count := Game.frame_count g;
         Game.random := r |}
    /\ length new = (10 * S k)%nat /\ Forall (crash_born (Game.bird g)) new.
Proof.
  induction k as [|k IH].
  - destruct (game_over_eq g) as (new & r & E & Hlen & Hall).
    exists new, r. simpl Nat.iter. rewrite E. auto.
  - destruct IH as (new & r & E & Hlen & Hall).
    change (Nat.iter (S (S k)) Game.game_over g)
      with (Game.game_over (Nat.iter (S k) Game.game_over g)).
    rewrite E.
    match goal with
    | |- context [Game.game_over ?g1] =>
        destruct (game_over_eq g1) as (new' & r' & E' & Hlen' & Hall')
    end.
    rewrite E'. cbn in *.
    exists (new ++ new'), r'. rewrite <- app_assoc.
    repeat split.
    + f_equal. lia.
    + rewrite length_app. lia.
    + apply Forall_app. auto.
Qed.

Lemma iter_game_over_bird (k : nat) (g : Game.t) :
  Game.bird (Nat.iter k Game.game_over g) = Game.bird g.
Proof.
  destruct k as [|k]; [ reflexivity | ].
  destruct (iter_game_over_eq k g) as (new & r & E & _). rewrite E. reflexivity.
Qed.

Lemma iter_game_over_pipes (k : nat) (g : Game.t) :
  Game.pipes (Nat.iter k Game.game_over g) = Game.pipes g.
Proof.
  destruct k as [|k]; [ reflexivity | ].
  destruct (iter_game_over_eq k g) as (new & r & E & _). rewrite E. reflexivity.
Qed.

(** The loop over the pipes runs [game_over] once per colliding pipe. *)
Lemma check_pipes_loop (ps : list Pipe.t) (g : Game.t) :
  fold_left
    (fun g p => if Pipe.collides_with p (Game.bird g)
                then Game.game_over g else g) ps g
  = Nat.iter (hits (Game.bird g) ps) Game.game_over g.
Proof.
  revert g. induction ps as [|p ps IH]; intros g; [ reflexivity | ].
  cbn [fold_left]. rewrite IH. unfold hits. cbn [filter].
  destruct (Pipe.collides_with p (Game.bird g)) eqn:C.
  - replace (Game.bird (Game.game_over g)) with (Game.bird g)
      by (symmetry; apply (iter_game_over_bird 1 g)).
    cbn [length]. rewrite Nat.iter_succ_r. reflexivity.
  - reflexivity.
Qed.

Lemma check_pipes_eq (g : Game.t) :
  Game.check_pipes g
  = Nat.iter (hits (Game.bird g) (Game.pipes g)) Game.game_over g.
Proof. apply check_pipes_loop. Qed.

(** The two collision blocks together run [game_over] once per trigger. *)
Lemma collisions_eq (g : Game.t) :
  Game.check_bounds (Game.check_pipes g)
  = Nat.iter (triggers g) Game.game_over g.
Proof.
  unfold Game.check_bounds, triggers. rewrite check_pipes_eq.
  rewrite iter_game_over_bird.
  destruct (Game.out_of_bounds (Game.bird g)).
  - rewrite Nat.add_1_r. reflexivity.
  - rewrite Nat.add_0_r. reflexivity.
Qed.

Lemma create_score_particles_eq (px py : float) (g : Game.t) :
  exists new r,
    Game.create_score_particles px py g
    = Game.set_particles (Game.particles g ++ new) (Game.set_random r g)
    /\ length new = 5%nat.
Proof.
  destruct (iter_appends (Game.score_particle px py) (fun _ => True)
              (score_particle_appends px py) 5
              (Game.particles g) (Game.random g))
    as (new & r & E & Hlen & _).
  exists new, r. unfold Game.create_score_particles. rewrite E. auto.
Qed.

(** The scoring loop: every pipe is marked as [mark_passed] says, the score
    grows by one point and the pool by five particles per pipe just
    passed. *)
Lemma check_passed_eq (ps : list Pipe.t) (g : Game.t) :
  exists new r,
    Game.check_passed ps g =
      (map (mark_passed (Bird.x (Game.bird g))) ps,
       {| Game.state := Game.state g;
          Game.score := Game.score g
                        + Z.of_nat (points (Bird.x (Game.bird g)) ps);
          Game.high_score := Game.high_score g;
          Game.particles := Game.particles g ++ new;
          Game.pipe_spawn_timer := Game.pipe_spawn_timer g;
          Game.pipe_spawn_interval := Game.pipe_spawn_interval g;
          Game.bird := Game.bird g;
          Game.pipes := Game.pipes g;
          Game.particle_system := Game.particle_system g;
          Game.shake_intensity := Game.shake_intensity g;
          Game.frame_count := Game.frame_count g;
          Game.random := r |})
    /\ length new = (5 * points (Bird.x (Game.bird g)) ps)%nat.
Proof.
  revert g. induction ps as [|p ps IH]; intros g.
  - exists [], (Game.random g). cbn. rewrite app_nil_r, Z.add_0_r.
    destruct g; auto.
  - cbn [Game.check_passed map]. unfold points, mark_passed. cbn [filter].
    destruct (Game.just_passed (Bird.x (Game.bird g)) p) eqn:J.
    + destruct (create_score_particles_eq
                  (float_of_int (SCREEN_WIDTH / 2)) (float_of_int 50)
                  (Game.set_score (Game.score g + 1) g))
        as (pop & r1 & E1 & Hpop).
      rewrite E1.
      match goal with
      | |- context [Game.check_passed ps ?g1] =>
          destruct (IH g1) as (new & r & E & Hlen)
      end.
      rewrite E. setters. unfold points in *.
      exists (pop ++ new), r. rewrite <- app_assoc. split.
      * f_equal. f_equal. cbn [length]. lia.
      * rewrite length_app. cbn [length]. lia.
    + destruct (IH g) as (new & r & E & Hlen). rewrite E.
      exists new, r. auto.
Qed.

(** The move and the spawn touch the bird, the pipes, the timer and the
    generator, and nothing else. *)
Lemma moved_frame (dt : float) (g : Game.t) :
  moved dt g =
    {| Game.state := Game.state g;
       Game.score := Game.score g;
       Game.high_score := Game.high_score g;
       Game.particles := Game.particles g;
       Game.pipe_spawn_timer := Game.pipe_spawn_timer (moved dt g);
       Game.pipe_spawn_interval := Game.pipe_spawn_interval g;
       Game.bird := Bird.update dt (Game.bird g);
       Game.pipes := Game.pipes (moved dt g);
       Game.particle_system := Game.particle_system g;
       Game.shake_intensity := Game.shake_intensity g;
       Game.frame_count := Game.frame_count g;
       Game.random := Game.random (moved dt g) |}.
Proof.
  apply game_ext; proj; try reflexivity;
    unfold moved, Game.spawn, Game.spawn_pipe, Game.move; cbv zeta; proj;
    destruct (Game.pipe_spawn_timer g - dt <=? 0)%float; proj;
    try reflexivity;
    destruct (randint MIN_PIPE_HEIGHT MAX_PIPE_HEIGHT (Game.random g));
    proj; reflexivity.
Qed.

(** When the timer runs out a pipe is appended at the right of the screen,
    with its gap drawn in the closed range, and the timer starts again. *)
Lemma moved_spawns (dt : float) (g : Game.t) :
  (Game.pipe_spawn_timer g - dt <=? 0)%float = true ->
  let gap := fst (randint MIN_PIPE_HEIGHT MAX_PIPE_HEIGHT (Game.random g)) in
  Game.pipes (moved dt g)
  = advanced dt (Game.pipes g) ++ [Pipe.__init__ (SCREEN_WIDTH + 50) gap]
  /\ Game.pipe_spawn_timer (moved dt g) = Game.pipe_spawn_interval g
  /\ MIN_PIPE_HEIGHT <= gap <= MAX_PIPE_HEIGHT.
Proof.
  intros H. cbv zeta.
  pose proof (randint_range MIN_PIPE_HEIGHT MAX_PIPE_HEIGHT (Game.random g)
                ltac:(vm_compute; discriminate)) as Hr.
  unfold moved, Game.spawn, Game.spawn_pipe, Game.move. cbv zeta. proj.
  rewrite H.
  destruct (randint MIN_PIPE_HEIGHT MAX_PIPE_HEIGHT (Game.random g)) as [gap r].
  proj. cbn [fst] in *. auto.
Qed.

Lemma moved_waits (dt : float) (g : Game.t) :
  (Game.pipe_spawn_timer g - dt <=? 0)%float = false ->
  Game.pipes (moved dt g) = advanced dt (Game.pipes g)
  /\ Game.pipe_spawn_timer (moved dt g) = (Game.pipe_spawn_timer g - dt)%float
  /\ Game.random (moved dt g) = Game.random g.
Proof.
  intros H. unfold moved, Game.spawn, Game.move. cbv zeta. proj.
  rewrite H. proj. auto.
Qed.

(** The whole block run in Playing mode, as one assignment to the game. *)
Lemma playing_eq (dt : float) (g : Game.t) :
  let g1 := moved dt g in
  let n := triggers g1 in
  let bx := Bird.x (Game.bird g) in
  exists crash pop r,
    Game.playing dt g =
      {| Game.state := match n with O => Game.state g | S _ => GAME_OVER end;
         Game.score := Game.score g + Z.of_nat (points bx (Game.pipes g1));
         Game.high_score :=
           match n with
           | O => Game.high_score g
           | S _ => Z.max (Game.high_score g) (Game.score g)
           end;
         Game.particles := Game.particles g ++ crash ++ pop;
         Game.pipe_spawn_timer := Game.pipe_spawn_timer g1;
         Game.pipe_spawn_interval := Game.pipe_spawn_interval g;
         Game.bird := Bird.update dt (Game.bird g);
         Game.pipes := map (mark_passed bx) (Game.pipes g1);
         Game.particle_system := Game.particle_system g;
         Game.shake_intensity :=
           match n with O => Game.shake_intensity g | S _ => 0.1%float end;
         Game.frame_count := Game.frame_count g;
         Game.random := r |}
    /\ length crash = (10 * n)%nat
    /\ length pop = (5 * points bx (Game.pipes g1))%nat
    /\ Forall (crash_born (Bird.update dt (Game.bird g))) crash.
Proof.
  cbv zeta. unfold Game.playing. fold (moved dt g).
  rewrite collisions_eq.
  pose proof (moved_frame dt g) as F.
  set (g1 := moved dt g) in *.
  assert (Hb : Game.bird g1 = Bird.update dt (Game.bird g))
    by (rewrite F; reflexivity).
  assert (Hx : Bird.x (Game.bird g1) = Bird.x (Game.bird g))
    by (rewrite Hb; reflexivity).
  destruct (triggers g1) as [|k] eqn:T.
  - change (Nat.iter 0 Game.game_over g1) with g1.
    destruct (check_passed_eq (Game.pipes g1) g1) as (pop & r & E & Hpop).
    rewrite E. rewrite Hx in *.
    exists [], pop, r. cbn [app length Nat.mul].
    repeat split; auto.
    apply game_ext; proj; try reflexivity; rewrite F; reflexivity.
  - destruct (iter_game_over_eq k g1) as (crash & r1 & E1 & Hcrash & Hall).
    rewrite E1.
    match goal with
    | |- context [Game.check_passed ?ps ?g2] =>
        destruct (check_passed_eq ps g2) as (pop & r & E & Hpop)
    end.
    proj. rewrite E. rewrite Hx, Hb in *.
    exists crash, pop, r.
    repeat split; auto.
    apply game_ext; proj; try reflexivity;
      try (rewrite F; reflexivity).
    rewrite <- app_assoc. rewrite F. reflexivity.
Qed.

End GameFacts.

(** ** One tick *)

Section TickFacts.
Context {L : PyLib}.

(** [update] in a mode other than Playing only ages the pool and lets the
    shake decay. *)
Lemma update_idle (dt : float) (g : Game.t) :
  Game.state g <> PLAYING -> Game.update dt g = Game.decay dt g.
Proof.
  intros H. unfold Game.update. destruct (Game.state g); congruence.
Qed.

(** A Playing tick, as one assignment to the game: [n] is the number of
    collisions it finds, [crash] and [pop] the bursts it adds to the pool
    before the pool is aged. *)
Lemma update_playing (dt : float) (g : Game.t) :
  Game.state g = PLAYING ->
  let g1 := moved dt g in
  let n := triggers g1 in
  let bx := Bird.x (Game.bird g) in
  exists crash pop r,
    Game.update dt g =
      {| Game.state := match n with O => PLAYING | S _ => GAME_OVER end;
         Game.score := Game.score g + Z.of_nat (points bx (Game.pipes g1));
         Game.high_score :=
           match n with
           | O => Game.high_score g
           | S _ => Z.max (Game.high_score g) (Game.score g)
           end;
         Game.particles :=
           Particle.update_all dt (Game.particles g ++ crash ++ pop);
         Game.pipe_spawn_timer := Game.pipe_spawn_timer g1;
         Game.pipe_spawn_interval := Game.pipe_spawn_interval g;
         Game.bird := Bird.update dt (Game.bird g);
         Game.pipes := map (mark_passed bx) (Game.pipes g1);
         Game.particle_system := Game.particle_system g;
         Game.shake_intensity :=
           (match n with O => Game.shake_intensity g | S _ => 0.1 end
            * 0.95)%float;
         Game.frame_count := Game.frame_count g;
         Game.random := r |}
    /\ length crash = (10 * n)%nat
    /\ length pop = (5 * points bx (Game.pipes g1))%nat
    /\ Forall (crash_born (Bird.update dt (Game.bird g))) crash.
Proof.
  intros H. cbv zeta.
  destruct (playing_eq dt g) as (crash & pop & r & E & Hc & Hp & Hall).
  exists crash, pop, r. repeat split; auto.
  unfold Game.update. rewrite H, E. unfold Game.decay. cbv zeta.
  apply game_ext; proj; try reflexivity.
  rewrite H. reflexivity.
Qed.

Lemma handle_event_high_score (e : Event) (g : Game.t) :
  Game.high_score (Game.handle_event e g) = Game.high_score g.
Proof.
  unfold Game.handle_event, Game.bird_flap, Game.reset_game.
  destruct e as [|k| |]; try destruct k; try reflexivity;
    cbv zeta; destruct (Game.state g) eqn:S;
    try destruct (Bird.flap (Game.bird g) (Game.random g));
    proj; try rewrite S; proj; reflexivity.
Qed.

Lemma handle_input_high_score (events : list Event) (g : Game.t) :
  Game.high_score (snd (Game.handle_input events g)) = Game.high_score g.
Proof.
  revert g. induction events as [|e rest IH]; intros g; [ reflexivity | ].
  destruct e; cbn [Game.handle_input]; try reflexivity;
    rewrite IH; apply handle_event_high_score.
Qed.

Lemma update_high_score (dt : float) (g : Game.t) :
  Game.high_score (Game.update dt g) =
    match Game.state g, triggers (moved dt g) with
    | PLAYING, S _ => Z.max (Game.high_score g) (Game.score g)
    | _, _ => Game.high_score g
    end.
Proof.
  destruct (Game.state g) eqn:S;
    try (rewrite update_idle by congruence; reflexivity).
  destruct (update_playing dt g S) as (crash & pop & r & E & _).
  rewrite E. proj. destruct (triggers (moved dt g)); reflexivity.
Qed.

Lemma update_high_score_le (dt : float) (g : Game.t) :
  Game.high_score g <= Game.high_score (Game.update dt g).
Proof.
  rewrite update_high_score.
  destruct (Game.state g), (triggers (moved dt g)); lia.
Qed.

(** C3. The best score never goes down: not over a run of frames, however
    the events and ticks fall; events leave it alone; a tick changes it only
    when it is a Playing tick that finds a collision, and then to the larger
    of the best score and the score; [reset_game] sets the score to 0 and
    keeps the best score. *)
Theorem high_score_monotone :
  (forall frames g, Game.high_score g <= Game.high_score (run frames g))
  /\ (forall events g,
        Game.high_score (snd (Game.handle_input events g)) = Game.high_score g)
  /\ (forall dt g,
        Game.high_score g <= Game.high_score (Game.update dt g)
        /\ Game.high_score (Game.update dt g) =
             match Game.state g, triggers (moved dt g) with
             | PLAYING, S _ => Z.max (Game.high_score g) (Game.score g)
             | _, _ => Game.high_score g
             end)
  /\ (forall g, Game.score (Game.reset_game g) = 0
                /\ Game.high_score (Game.reset_game g) = Game.high_score g).
Proof.
  repeat split.
  - induction frames as [|[events dt] rest IH]; intros g; cbn [run]; [ lia | ].
    unfold Game.frame.
    pose proof (handle_input_high_score events g) as Hi.
    destruct (Game.handle_input events g) as [running g1]. cbn [snd] in Hi.
    pose proof (update_high_score_le dt g1) as Hu.
    destruct running; [ specialize (IH (Game.update dt g1)) | ]; lia.
  - intros. apply handle_input_high_score.
  - apply update_high_score_le.
  - apply update_high_score.
Qed.


(** C10. In a Playing tick whose bird, once moved, is at the ceiling or the
    ground and overlaps [n] pipes, the two collision blocks run [game_over]
    [n + 1] times: each run sets the mode to GameOver and the shake to 0.1,
    appends ten particles to the free pool and raises the best score to the
    score.  The tick ends in GameOver mode with those [10 * (n + 1)]
    particles (and the score bursts) in the pool it then ages. *)
Theorem stacked_collisions (dt : float) (g : Game.t) :
  let g1 := moved dt g in
  let n := hits (Game.bird g1) (Game.pipes g1) in
  Game.state g = PLAYING ->
  Game.out_of_bounds (Game.bird g1) = true ->
  Game.check_bounds (Game.check_pipes g1)
  = Nat.iter (n + 1) Game.game_over g1
  /\ (exists crash,
        Game.particles (Game.check_bounds (Game.check_pipes g1))
        = Game.particles g ++ crash
        /\ length crash = (10 * (n + 1))%nat)
  /\ Game.state (Game.update dt g) = GAME_OVER
  /\ (exists crash pop,
        Game.particles (Game.update dt g)
        = Particle.update_all dt (Game.particles g ++ crash ++ pop)
        /\ length crash = (10 * (n + 1))%nat
        /\ length pop
           = (5 * points (Bird.x (Game.bird g)) (Game.pipes g1))%nat).
Proof.
  cbv zeta. intros HP HB.
  assert (T : triggers (moved dt g)
              = (hits (Game.bird (moved dt g)) (Game.pipes (moved dt g)) + 1)%nat)
    by (unfold triggers; rewrite HB; reflexivity).
  split; [ rewrite collisions_eq, T; reflexivity | ].
  split.
  - rewrite collisions_eq, T, Nat.add_1_r.
    destruct (iter_game_over_eq
                (hits (Game.bird (moved dt g)) (Game.pipes (moved dt g)))
                (moved dt g)) as (crash & r & E & Hlen & _).
    rewrite E. proj. exists crash. rewrite (moved_frame dt g) at 1. proj.
    split; [ reflexivity | lia ].
  - destruct (update_playing dt g HP) as (crash & pop & r & E & Hc & Hp & _).
    rewrite E. proj. rewrite <- T.
    destruct (triggers (moved dt g)) as [|k]; [ lia | ].
    split; [ reflexivity | ].
    exists crash, pop. auto.
Qed.

Lemma moved_bird (dt : float) (g : Game.t) :
  Game.bird (moved dt g) = Bird.update dt (Game.bird g).
Proof. rewrite (moved_frame dt g). reflexivity. Qed.

(** C6 (as amended). In a Playing tick whose bird, once moved, is at the
    ceiling ([y - size <= 0], as when [y] was forced to 0 with the bird at
    rest) or at the ground
    ([SCREEN_HEIGHT <= y + size]), the mode becomes GameOver; the shake is
    set to 0.1 by the collision blocks and, decayed at the end of the same
    tick, is [0.1 * 0.95] when [update] returns; ten particles are appended
    to the free pool for the boundary, and ten more for each of the [n]
    pipes the bird overlaps, all starting at the bird, before the pool is
    aged. *)
Theorem boundary_breach (dt : float) (g : Game.t) :
  let b := Bird.update dt (Game.bird g) in
  let n := hits b (Game.pipes (moved dt g)) in
  Game.state g = PLAYING ->
  (Bird.y b - float_of_int (Bird.size b) <=? 0)%float = true
  \/ (float_of_int SCREEN_HEIGHT <=? Bird.y b + float_of_int (Bird.size b))%float
     = true ->
  Game.state (Game.update dt g) = GAME_OVER
  /\ Game.shake_intensity (Game.check_bounds (Game.check_pipes (moved dt g)))
     = 0.1%float
  /\ Game.shake_intensity (Game.update dt g) = (0.1 * 0.95)%float
  /\ (exists crash pop,
        Game.particles (Game.update dt g)
        = Particle.update_all dt (Game.particles g ++ crash ++ pop)
        /\ length crash = (10 * (n + 1))%nat
        /\ Forall (crash_born b) crash
        /\ length pop
           = (5 * points (Bird.x (Game.bird g)) (Game.pipes (moved dt g)))%nat).
Proof.
  cbv zeta. intros HP HB.
  assert (OB : Game.out_of_bounds (Game.bird (moved dt g)) = true).
  { rewrite moved_bird. unfold Game.out_of_bounds.
    destruct HB as [H|H]; rewrite H; auto using orb_true_r. }
  assert (T : triggers (moved dt g)
              = S (hits (Bird.update dt (Game.bird g)) (Game.pipes (moved dt g)))).
  { unfold triggers. rewrite OB, moved_bird. lia. }
  destruct (update_playing dt g HP) as (crash & pop & r & E & Hc & Hp & Hall).
  rewrite E. proj. rewrite T in *.
  repeat split.
  - rewrite collisions_eq, T.
    match goal with
    | |- context [Nat.iter (S ?k) Game.game_over ?g1] =>
        destruct (iter_game_over_eq k g1) as (c1 & r1 & E1 & _)
    end.
    rewrite E1. reflexivity.
  - exists crash, pop. repeat split; auto. lia.
Qed.

Lemma clear_no_collision (b : Bird.t) (p : Pipe.t) :
  clear_of (Bird.get_rect b) p -> Pipe.collides_with p b = false.
Proof.
  unfold clear_of, Pipe.collides_with. cbv zeta.
  set (r := Bird.get_rect b). intros H.
  destruct (Z.ltb_spec (Rect.top r) (Pipe.gap_y p)),
           (Z.ltb_spec (Rect.left r) (Pipe.x p + Pipe.width p)),
           (Z.gtb_spec (Rect.right r) (Pipe.x p)),
           (Z.gtb_spec (Rect.bottom r) (Pipe.gap_y p + PIPE_GAP));
    cbn [andb]; try reflexivity; lia.
Qed.

Lemma hits_none (b : Bird.t) (ps : list Pipe.t) :
  (forall p, In p ps -> Pipe.collides_with p b = false) -> hits b ps = 0%nat.
Proof.
  unfold hits. induction ps as [|p ps IH]; intros H; [ reflexivity | ].
  cbn [filter]. rewrite (H p (or_introl eq_refl)).
  apply IH. intros q Hq. apply H. right. exact Hq.
Qed.

Lemma inside_not_out (b : Bird.t) :
  strictly_inside b -> Game.out_of_bounds b = false.
Proof.
  intros [Htop Hbot]. unfold Game.out_of_bounds.
  rewrite (float_lt_not_le _ _ Htop), (float_lt_not_le _ _ Hbot). reflexivity.
Qed.

(** C5 (as amended). [get_rect] is the square of side [2 * size] whose left
    edge is [x - size] and whose top is the int pygame makes of [y - size].
    [collides_with] answers [True] exactly when that square overlaps the
    span of the pipe horizontally and its top is above the gap or its bottom
    below the gap.  Consequently a Playing tick after whose move the square
    is clear of both stubs of every pipe, and the bird strictly between the
    ceiling and the ground ([0 < y - size] and [y + size < 600]), leaves the
    mode at Playing. *)
Theorem collision_geometry :
  (forall b,
     let r := Bird.get_rect b in
     Rect.left r = Bird.x b - Bird.size b
     /\ Rect.top r = rect_int (Bird.y b - float_of_int (Bird.size b))
     /\ Rect.width r = Bird.size b * 2 /\ Rect.height r = Bird.size b * 2)
  /\ (forall p b,
        let r := Bird.get_rect b in
        Pipe.collides_with p b = true <->
        (Rect.left r < Pipe.x p + Pipe.width p /\ Pipe.x p < Rect.right r)
        /\ (Rect.top r < Pipe.gap_y p
            \/ Pipe.gap_y p + PIPE_GAP < Rect.bottom r))
  /\ (forall dt g,
        let b := Bird.update dt (Game.bird g) in
        Game.state g = PLAYING ->
        (forall p, In p (Game.pipes (moved dt g)) ->
                   clear_of (Bird.get_rect b) p) ->
        strictly_inside b ->
        Game.state (Game.update dt g) = PLAYING).
Proof.
  split; [ | split ].
  - intros b. cbv zeta. repeat split.
  - intros p b. cbv zeta. unfold Pipe.collides_with. cbv zeta.
    set (r := Bird.get_rect b).
    destruct (Z.ltb_spec (Rect.top r) (Pipe.gap_y p)),
             (Z.ltb_spec (Rect.left r) (Pipe.x p + Pipe.width p)),
             (Z.gtb_spec (Rect.right r) (Pipe.x p)),
             (Z.gtb_spec (Rect.bottom r) (Pipe.gap_y p + PIPE_GAP));
      cbn [andb]; split; intros HH; try discriminate; try reflexivity; lia.
  - intros dt g. cbv zeta. intros HP Hclear Hin.
    assert (T : triggers (moved dt g) = 0%nat).
    { unfold triggers. rewrite moved_bird.
      rewrite (inside_not_out _ Hin).
      rewrite hits_none; [ reflexivity | ].
      intros p Hp. apply clear_no_collision. auto. }
    destruct (update_playing dt g HP) as (crash & pop & r & E & _).
    rewrite E. proj. rewrite T. reflexivity.
Qed.

End TickFacts.

(** ** Events and modes *)

Section InputFacts.
Context {L : PyLib}.

(** C1 (as amended). The mode machine.  Activate, from a key of the group
    or from a pointer press, starts a run from the menu with a full reset
    ([reset_game]: a new bird at (100, 300), no pipe, score 0, the spawn
    timer at its interval, no shake).  A Playing tick ends in GameOver mode
    when it finds a collision, with a pipe or with the ceiling or the
    ground, and in Playing mode otherwise; a tick in another mode keeps the
    mode.  In GameOver mode Activate from a key leads to the menu, while
    Activate from a pointer press starts the next run at once, with the same
    reset.  ESCAPE turns Playing into Paused and Paused into Playing and
    changes nothing else.  While Paused every other event leaves the game as
    it is; [QUIT] too, in any mode, though it makes [handle_input] return
    [False]. *)
Theorem mode_machine :
  (forall e g,
     is_activate e = true -> Game.state g = MENU ->
     Game.handle_event e g = Game.reset_game (Game.set_state PLAYING g))
  /\ (forall g,
        let g' := Game.reset_game (Game.set_state PLAYING g) in
        Game.state g' = PLAYING /\ Game.score g' = 0 /\ Game.pipes g' = []
        /\ Game.bird g' = Bird.__init__ 100 300
        /\ Game.pipe_spawn_timer g' = Game.pipe_spawn_interval g
        /\ Game.shake_intensity g' = 0%float
        /\ Game.high_score g' = Game.high_score g)
  /\ (forall dt g,
        Game.state g = PLAYING ->
        Game.state (Game.update dt g) =
          match triggers (moved dt g) with O => PLAYING | S _ => GAME_OVER end)
  /\ (forall dt g,
        Game.state g <> PLAYING ->
        Game.state (Game.update dt g) = Game.state g)
  /\ (forall k g,
        activate_key k = true -> Game.state g = GAME_OVER ->
        Game.handle_event (KEYDOWN k) g = Game.set_state MENU g)
  /\ (forall g,
        Game.state g = GAME_OVER ->
        Game.handle_event MOUSEBUTTONDOWN g
        = Game.reset_game (Game.set_state PLAYING g))
  /\ (forall g,
        Game.state g = PLAYING ->
        Game.handle_event (KEYDOWN K_ESCAPE) g = Game.set_state PAUSED g)
  /\ (forall g,
        Game.state g = PAUSED ->
        Game.handle_event (KEYDOWN K_ESCAPE) g = Game.set_state PLAYING g)
  /\ (forall e g,
        Game.state g = PAUSED -> is_pause e = false ->
        Game.handle_event e g = g)
  /\ (forall rest g, Game.handle_input (QUIT :: rest) g = (false, g)).
Proof.
  split.
  { intros e g He Hs. unfold Game.handle_event.
    destruct e as [|k| |]; try discriminate He;
      [ destruct k; try discriminate He | ];
      cbv zeta; rewrite Hs; reflexivity. }
  split.
  { intros g. cbv zeta. repeat split. }
  split.
  { intros dt g Hs.
    destruct (update_playing dt g Hs) as (crash & pop & r & E & _).
    rewrite E. reflexivity. }
  split.
  { intros dt g Hs. rewrite (update_idle dt g Hs). reflexivity. }
  split.
  { intros k g Hk Hs. unfold Game.handle_event.
    destruct k; try discriminate Hk; cbv zeta; rewrite Hs; reflexivity. }
  split.
  { intros g Hs. unfold Game.handle_event. rewrite Hs. reflexivity. }
  split.
  { intros g Hs. unfold Game.handle_event. cbv zeta. rewrite Hs. reflexivity. }
  split.
  { intros g Hs. unfold Game.handle_event. cbv zeta. rewrite Hs. reflexivity. }
  split.
  { intros e g Hs He. unfold Game.handle_event.
    destruct e as [|k| |]; try reflexivity;
      [ destruct k; try discriminate He | ];
      cbv zeta; try reflexivity; rewrite Hs; try rewrite Hs; reflexivity. }
  intros rest g. reflexivity.
Qed.



End InputFacts.

(** ** The first pipe of a run *)

Section SpawnFacts.
Context {L : PyLib}.



Lemma mark_passed_keeps (bx : Z) (p : Pipe.t) :
  Pipe.x (mark_passed bx p) = Pipe.x p
  /\ Pipe.gap_y (mark_passed bx p) = Pipe.gap_y p
  /\ Pipe.width (mark_passed bx p) = Pipe.width p.
Proof.
  unfold mark_passed. destruct (Game.just_passed bx p); repeat split.
Qed.







End SpawnFacts.

(** ** Scoring *)

Section ScoreFacts.
Context {L : PyLib}.

(** A pipe after [n] Playing ticks, in closed form: 4 px further left per
    tick, passed when it was so before or the bird is past its trailing
    edge. *)
Lemma pipe_after_eq (bx : Z) (dt : float) (n : nat) (p : Pipe.t) :
  pipe_after bx dt n p =
    {| Pipe.x := Pipe.x p - 4 * Z.of_nat n;
       Pipe.gap_y := Pipe.gap_y p;
       Pipe.width := Pipe.width p;
       Pipe.passed :=
         Pipe.passed p
         || (negb (Nat.eqb n 0) && (trailing p - 4 * Z.of_nat n <? bx)) |}.
Proof.
  induction n as [|n IH].
  - cbn [pipe_after Nat.eqb negb andb]. rewrite orb_false_r.
    destruct p; cbn. f_equal. lia.
  - cbn [pipe_after]. rewrite IH. clear IH.
    unfold pipe_tick, mark_passed, Game.just_passed, Pipe.update,
      Pipe.set_passed, trailing, PIPE_VELOCITY.
    cbn [Pipe.x Pipe.gap_y Pipe.width Pipe.passed Nat.eqb negb andb].
    destruct (Pipe.passed p); cbn [orb negb andb].
    + f_equal. lia.
    + destruct n as [|n]; cbn [Nat.eqb negb andb].
      * destruct (Z.ltb_spec (Pipe.x p - 4 * Z.of_nat 0 + -4 + Pipe.width p) bx),
                 (Z.ltb_spec (Pipe.x p + Pipe.width p - 4 * Z.of_nat 1) bx);
          try lia; f_equal; lia.
      * destruct (Z.ltb_spec (Pipe.x p + Pipe.width p - 4 * Z.of_nat (S n)) bx),
                 (Z.ltb_spec (Pipe.x p - 4 * Z.of_nat (S n) + -4 + Pipe.width p) bx),
                 (Z.ltb_spec (Pipe.x p + Pipe.width p - 4 * Z.of_nat (S (S n))) bx);
          cbn [negb andb]; try lia; f_equal; lia.
Qed.

Lemma credit_eq (bx : Z) (dt : float) (p : Pipe.t) (n : nat) :
  credit bx dt p n =
    negb (Pipe.passed p)
    && (trailing p - 4 * Z.of_nat (S n) <? bx)
    && (Nat.eqb n 0 || (bx <=? trailing p - 4 * Z.of_nat n)).
Proof.
  unfold credit. rewrite pipe_after_eq.
  unfold Game.just_passed, Pipe.update, trailing, PIPE_VELOCITY.
  cbn [Pipe.x Pipe.gap_y Pipe.width Pipe.passed].
  destruct (Pipe.passed p); cbn [orb negb andb]; [ reflexivity | ].
  destruct n as [|n]; cbn [Nat.eqb negb andb orb].
  - rewrite andb_true_r. f_equal. lia.
  - destruct (Z.ltb_spec (Pipe.x p + Pipe.width p - 4 * Z.of_nat (S n)) bx),
             (Z.ltb_spec (Pipe.x p - 4 * Z.of_nat (S n) + -4 + Pipe.width p) bx),
             (Z.ltb_spec (Pipe.x p + Pipe.width p - 4 * Z.of_nat (S (S n))) bx),
             (Z.leb_spec bx (Pipe.x p + Pipe.width p - 4 * Z.of_nat (S n)));
      cbn [negb andb]; try reflexivity; lia.
Qed.

(** The points a pipe earns over its first [n] ticks: one when the bird is
    past its trailing edge by then, none otherwise. *)
Lemma credits_count (bx : Z) (dt : float) (p : Pipe.t) (n : nat) :
  Pipe.passed p = false ->
  length (filter (credit bx dt p) (seq 0 n))
  = if negb (Nat.eqb n 0) && (trailing p - 4 * Z.of_nat n <? bx)
    then 1%nat else 0%nat.
Proof.
  intros Hp. induction n as [|n IH]; [ reflexivity | ].
  rewrite seq_S, filter_app, length_app, IH. cbn [Nat.add filter].
  rewrite credit_eq, Hp. cbn [negb andb Nat.eqb].
  destruct n as [|n]; cbn [Nat.eqb negb andb orb].
  - rewrite andb_true_r.
    destruct (trailing p - 4 * Z.of_nat 1 <? bx); reflexivity.
  - destruct (Z.ltb_spec (trailing p - 4 * Z.of_nat (S n)) bx),
             (Z.ltb_spec (trailing p - 4 * Z.of_nat (S (S n))) bx),
             (Z.leb_spec bx (trailing p - 4 * Z.of_nat (S n)));
      cbn [andb length Nat.add]; try reflexivity; lia.
Qed.

(** The pipes a Playing tick works on: those that stay on screen after the
    move, and the pipe the tick spawns, if any. *)
Lemma moved_pipes (dt : float) (g : Game.t) :
  exists spawned,
    Game.pipes (moved dt g) = advanced dt (Game.pipes g) ++ spawned
    /\ (spawned = []
        \/ exists gap, spawned = [Pipe.__init__ (SCREEN_WIDTH + 50) gap]).
Proof.
  destruct (Game.pipe_spawn_timer g - dt <=? 0)%float eqn:T.
  - destruct (moved_spawns dt g T) as (M & _). eexists. split; [ exact M | ].
    right. eexists. reflexivity.
  - destruct (moved_waits dt g T) as (M & _). exists [].
    rewrite app_nil_r. auto.
Qed.

Lemma flap_x (b : Bird.t) (r : rng) : Bird.x (fst (Bird.flap b r)) = Bird.x b.
Proof.
  unfold Bird.flap. destruct (_ <=? _)%float; [ | reflexivity ].
  destruct (Nat.iter 5 _ _). reflexivity.
Qed.

Lemma handle_event_scored (e : Event) (g : Game.t) :
  scored_or_ahead g -> scored_or_ahead (Game.handle_event e g).
Proof.
  intros [Hx Hp]. unfold scored_or_ahead, Game.handle_event, Game.bird_flap.
  pose proof (flap_x (Game.bird g) (Game.random g)) as Hf.
  destruct (Bird.flap (Game.bird g) (Game.random g)) as [b r]. cbn [fst] in Hf.
  destruct e as [|k| |]; try destruct k; cbv zeta;
    destruct (Game.state g) eqn:S; proj; try rewrite S; proj;
    unfold Game.reset_game; proj;
    (split; [ try reflexivity; congruence | auto; intros p [] ]).
Qed.

Lemma handle_input_scored (events : list Event) (g : Game.t) :
  scored_or_ahead g -> scored_or_ahead (snd (Game.handle_input events g)).
Proof.
  revert g. induction events as [|e rest IH]; intros g H; [ exact H | ].
  destruct e; cbn [Game.handle_input snd]; try exact H;
    apply IH, handle_event_scored, H.
Qed.

Lemma mark_passed_scored (bx : Z) (p : Pipe.t) :
  Pipe.passed (mark_passed bx p) = true \/ bx <= trailing (mark_passed bx p).
Proof.
  unfold mark_passed, Game.just_passed, trailing.
  destruct (Pipe.passed p) eqn:P; cbn [negb andb]; [ auto | ].
  destruct (Z.ltb_spec (Pipe.x p + Pipe.width p) bx); cbn; auto.
Qed.

Lemma update_scored (dt : float) (g : Game.t) :
  scored_or_ahead g -> scored_or_ahead (Game.update dt g).
Proof.
  intros [Hx Hp]. destruct (Game.state g) eqn:S;
    try (rewrite update_idle by congruence; unfold Game.decay; cbv zeta;
         unfold scored_or_ahead; proj; auto).
  destruct (update_playing dt g S) as (crash & pop & r & E & _).
  rewrite E. unfold scored_or_ahead. proj. split; [ exact Hx | ].
  intros q Hq. apply in_map_iff in Hq. destruct Hq as (p & <- & Hin).
  destruct (mark_passed_keeps (Bird.x (Game.bird g)) p) as (_ & _ & Kw).
  rewrite Kw.
  pose proof (mark_passed_scored (Bird.x (Game.bird g)) p) as Hm.
  rewrite Hx in Hm |- *. split; [ | exact Hm ].
  destruct (moved_pipes dt g) as (spawned & M & Hsp). rewrite M in Hin.
  apply in_app_or in Hin. destruct Hin as [Hin|Hin].
  - unfold advanced in Hin. apply filter_In in Hin. destruct Hin as [Hin _].
    apply in_map_iff in Hin. destruct Hin as (p0 & <- & Hin0).
    apply (Hp p0 Hin0).
  - destruct Hsp as [->|[gap ->]]; [ destruct Hin | ].
    destruct Hin as [<-|[]]. reflexivity.
Qed.

Lemma reachable_scored (g : Game.t) : reachable g -> scored_or_ahead g.
Proof.
  induction 1 as [r|events g _ IH|dt g _ IH].
  - split; [ reflexivity | intros p [] ].
  - apply handle_input_scored, IH.
  - apply update_scored, IH.
Qed.

Lemma advanced_kept (dt : float) (ps : list Pipe.t) :
  advanced dt ps = map (Pipe.update dt) (kept dt ps).
Proof.
  unfold advanced, kept. induction ps as [|p ps IH]; [ reflexivity | ].
  cbn [map filter]. destruct (Pipe.is_off_screen (Pipe.update dt p));
    cbn [negb map]; rewrite IH; reflexivity.
Qed.

Lemma points_app (bx : Z) (ps qs : list Pipe.t) :
  points bx (ps ++ qs) = (points bx ps + points bx qs)%nat.
Proof. unfold points. rewrite filter_app, length_app. reflexivity. Qed.

Lemma points_moved (bx : Z) (dt : float) (ps : list Pipe.t) :
  points bx (map (Pipe.update dt) ps)
  = length (filter (fun p => credit bx dt p 0) ps).
Proof.
  unfold points, credit. cbn [pipe_after].
  induction ps as [|p ps IH]; [ reflexivity | ].
  cbn [map filter]. destruct (Game.just_passed bx (Pipe.update dt p));
    cbn [length]; rewrite IH; reflexivity.
Qed.

(** C2. For every pipe the score is incremented once: in the first Playing
    tick in which, the pipe having moved, the bird's x exceeds its trailing
    edge, and never again.

    - A Playing tick turns every pipe it keeps into [pipe_tick] of it (the
      move, then the scoring test), in order, and adds to the score one
      point per kept pipe that [credit] selects in this tick.
    - For a pipe that is not passed, tick [n + 1] of its life gives the
      point exactly when the trailing edge is behind the bird after that
      tick's move and was not after the move of the tick before (or there
      was none); over any [n] ticks the pipe earns one point if the bird is
      past its trailing edge by then and none otherwise.
    - A passed pipe never gives a point, the scoring test sets the flag of
      the pipe it gives a point for, and a tick never clears the flag.
    - On the games the program can be in, the bird stays at x = 100, a new
      pipe gives no point in the tick that spawns it, and a pipe is never
      dropped off screen before it is passed. *)
Theorem score_once :
  (forall dt g,
     Game.state g = PLAYING ->
     let bx := Bird.x (Game.bird g) in
     exists spawned,
       (spawned = [] \/ exists gap, spawned = [Pipe.__init__ 450 gap])
       /\ Game.pipes (Game.update dt g)
          = map (pipe_tick bx dt) (kept dt (Game.pipes g))
            ++ map (mark_passed bx) spawned
       /\ Game.score (Game.update dt g)
          = Game.score g
            + Z.of_nat (length (filter (fun p => credit bx dt p 0)
                                  (kept dt (Game.pipes g))))
            + Z.of_nat (points bx spawned)
       /\ Bird.x (Game.bird (Game.update dt g)) = bx)
  /\ (forall bx dt p n,
        Pipe.passed p = false ->
        (credit bx dt p n = true <->
         trailing p - 4 * Z.of_nat (S n) < bx
         /\ (n = 0%nat \/ bx <= trailing p - 4 * Z.of_nat n))
        /\ length (filter (credit bx dt p) (seq 0 n))
           = if negb (Nat.eqb n 0) && (trailing p - 4 * Z.of_nat n <? bx)
             then 1%nat else 0%nat)
  /\ (forall bx dt p n, Pipe.passed p = true -> credit bx dt p n = false)
  /\ (forall bx p,
        Game.just_passed bx p = true ->
        Pipe.passed (mark_passed bx p) = true
        /\ Game.just_passed bx (mark_passed bx p) = false)
  /\ (forall bx dt p,
        Pipe.passed p = true -> Pipe.passed (pipe_tick bx dt p) = true)
  /\ (forall g,
        reachable g ->
        Bird.x (Game.bird g) = 100
        /\ (forall gap, points (Bird.x (Game.bird g)) [Pipe.__init__ 450 gap]
                        = 0%nat)
        /\ (forall p dt,
              In p (Game.pipes g) ->
              Pipe.is_off_screen (Pipe.update dt p) = true ->
              Pipe.passed p = true)).
Proof.
  split.
  { intros dt g Hs. cbv zeta.
    destruct (update_playing dt g Hs) as (crash & pop & r & E & _).
    destruct (moved_pipes dt g) as (spawned & M & Hsp).
    exists spawned. split; [ exact Hsp | ].
    rewrite E. proj. rewrite M, advanced_kept, points_app, points_moved.
    rewrite map_app, map_map. repeat split. lia. }
  split.
  { intros bx dt p n Hp. split; [ | apply credits_count, Hp ].
    rewrite credit_eq, Hp. cbn [negb andb].
    destruct (Z.ltb_spec (trailing p - 4 * Z.of_nat (S n)) bx),
             (Z.leb_spec bx (trailing p - 4 * Z.of_nat n)),
             (Nat.eqb_spec n 0);
      cbn [andb orb]; split; intros HH; try discriminate; try reflexivity;
      lia. }
  split.
  { intros bx dt p n Hp. rewrite credit_eq, Hp. reflexivity. }
  split.
  { intros bx p H. unfold mark_passed. rewrite H. split; reflexivity. }
  split.
  { intros bx dt p H. unfold pipe_tick, mark_passed, Game.just_passed.
    cbn [Pipe.update Pipe.passed]. rewrite H. cbn [negb andb Pipe.passed].
    exact H. }
  intros g Hr. destruct (reachable_scored g Hr) as [Hx Hp].
  split; [ exact Hx | ]. split.
  - intros gap. rewrite Hx. reflexivity.
  - intros p dt Hin Hoff. destruct (Hp p Hin) as [Hw [Hpassed|Hahead]];
      [ exact Hpassed | ].
    unfold Pipe.is_off_screen, Pipe.update, trailing, PIPE_VELOCITY in *.
    cbn [Pipe.x Pipe.width] in Hoff.
    apply Z.ltb_lt in Hoff. lia.
Qed.

End ScoreFacts.

(** ** More on events *)

Section EventFacts.
Context {L : PyLib}.

Lemma handle_input_fold (events : list Event) (g : Game.t) :
  existsb is_quit events = false ->
  Game.handle_input events g
  = (true, fold_left (fun g e => Game.handle_event e g) events g).
Proof.
  revert g. induction events as [|e rest IH]; intros g H; [ reflexivity | ].
  cbn [existsb] in H. apply orb_false_iff in H. destruct H as [He Hrest].
  destruct e; try discriminate He; cbn [Game.handle_input fold_left];
    apply IH, Hrest.
Qed.



Lemma handle_event_frame (e : Event) (g : Game.t) :
  let g' := Game.handle_event e g in
  Game.particles g' = Game.particles g
  /\ Game.pipe_spawn_interval g' = Game.pipe_spawn_interval g
  /\ (Game.pipes g' = Game.pipes g \/ Game.pipes g' = [])
  /\ (Game.score g' = Game.score g \/ Game.score g' = 0)
  /\ (Game.shake_intensity g' = Game.shake_intensity g
      \/ Game.shake_intensity g' = 0%float).
Proof.
  cbv zeta. unfold Game.handle_event, Game.bird_flap, Game.reset_game.
  destruct (Bird.flap (Game.bird g) (Game.random g)) as [b r].
  destruct e as [|k| |]; try destruct k; cbv zeta;
    destruct (Game.state g) eqn:S; proj; try rewrite S; proj; auto 10.
Qed.

(** X2. Events never touch the free particle pool, not even the reset of a
    new run (which empties [particle_system], an attribute nothing else
    uses): after any batch of events the pool and the spawn interval are
    what they were, the pipes are what they were or none, the score is what
    it was or 0, the shake is what it was or 0. *)
Theorem events_keep_the_pool (events : list Event) (g : Game.t) :
  let g' := snd (Game.handle_input events g) in
  Game.particles g' = Game.particles g
  /\ Game.pipe_spawn_interval g' = Game.pipe_spawn_interval g
  /\ (Game.pipes g' = Game.pipes g \/ Game.pipes g' = [])
  /\ (Game.score g' = Game.score g \/ Game.score g' = 0)
  /\ (Game.shake_intensity g' = Game.shake_intensity g
      \/ Game.shake_intensity g' = 0%float).
Proof.
  revert g. induction events as [|e rest IH]; intros g; cbv zeta.
  - cbn. auto 10.
  - assert (Hq : Game.handle_input (e :: rest) g = (false, g)
                 \/ Game.handle_input (e :: rest) g
                    = Game.handle_input rest (Game.handle_event e g))
      by (destruct e; cbn; auto).
    destruct Hq as [Hq|Hq]; rewrite Hq; [ cbn; auto 10 | ].
    destruct (handle_event_frame e g) as (H1 & H2 & H3 & H4 & H5).
    destruct (IH (Game.handle_event e g)) as (I1 & I2 & I3 & I4 & I5).
    repeat split; try congruence.
    + destruct I3 as [I3|I3]; [ rewrite I3; exact H3 | auto ].
    + destruct I4 as [I4|I4]; [ rewrite I4; exact H4 | auto ].
    + destruct I5 as [I5|I5]; [ rewrite I5; exact H5 | auto ].
Qed.

Lemma set_same (g : Game.t) :
  Game.set_bird (Game.bird g) (Game.set_random (Game.random g) g) = g.
Proof. destruct g; reflexivity. Qed.

(** A bird that has just been asked to flap does not flap again. *)
Lemma flap_twice (b : Bird.t) (r r' : rng) :
  Bird.flap (fst (Bird.flap b r)) r' = (fst (Bird.flap b r), r').
Proof.
  unfold Bird.flap at 2 3.
  destruct (Bird.flap_cooldown b <=? 0)%float eqn:C.
  - destruct (Nat.iter 5 (Bird.flap_particle b) (Bird.particles b, r))
      as [ps r1]. cbn [fst]. unfold Bird.flap. cbn [Bird.flap_cooldown].
    replace (0.1 <=? 0)%float with false by reflexivity. reflexivity.
  - cbn [fst]. unfold Bird.flap. rewrite C. reflexivity.
Qed.

Lemma activate_playing (e : Event) (g : Game.t) :
  Game.state g = PLAYING -> is_activate e = true ->
  Game.handle_event e g = Game.bird_flap g.
Proof.
  intros Hs He. unfold Game.handle_event.
  destruct e as [|k| |]; try discriminate He;
    [ destruct k; try discriminate He | ];
    cbv zeta; rewrite Hs; try reflexivity;
    unfold Game.bird_flap;
    destruct (Bird.flap (Game.bird g) (Game.random g)); proj;
    rewrite Hs; reflexivity.
Qed.

Lemma bird_flap_twice (g : Game.t) :
  Game.bird_flap (Game.bird_flap g) = Game.bird_flap g.
Proof.
  unfold Game.bird_flap at 1.
  assert (H : Game.bird (Game.bird_flap g)
              = fst (Bird.flap (Game.bird g) (Game.random g))).
  { unfold Game.bird_flap.
    destruct (Bird.flap (Game.bird g) (Game.random g)); reflexivity. }
  rewrite H, flap_twice, <- H. apply set_same.
Qed.

Lemma bird_flap_state (g : Game.t) :
  Game.state (Game.bird_flap g) = Game.state g.
Proof.
  unfold Game.bird_flap.
  destruct (Bird.flap (Game.bird g) (Game.random g)); reflexivity.
Qed.

(** X3. Activate events piled up in one frame of a run flap once: whatever
    their number and whether they come from keys or from the pointer, the
    game after the batch is the game after its first event, because the
    first flap starts the cooldown that turns the others into no-ops. *)
Theorem activate_spam (e : Event) (more : list Event) (g : Game.t) :
  Game.state g = PLAYING ->
  is_activate e = true -> forallb is_activate more = true ->
  Game.handle_input (e :: more) g = (true, Game.handle_event e g).
Proof.
  intros Hs He Hmore.
  assert (Hq : existsb is_quit (e :: more) = false).
  { apply not_true_iff_false. intros Hx. apply existsb_exists in Hx.
    destruct Hx as (q & Hin & Hq). destruct q; try discriminate Hq.
    destruct Hin as [Heq|Hin]; [ subst e; discriminate He | ].
    rewrite forallb_forall in Hmore. specialize (Hmore _ Hin).
    discriminate Hmore. }
  rewrite (handle_input_fold _ _ Hq). f_equal. cbn [fold_left].
  rewrite (activate_playing e g Hs He).
  clear Hq He. induction more as [|e' rest IH]; [ reflexivity | ].
  cbn [forallb] in Hmore. apply andb_true_iff in Hmore.
  destruct Hmore as [He' Hrest]. cbn [fold_left].
  rewrite (activate_playing e' (Game.bird_flap g));
    [ | rewrite bird_flap_state; exact Hs | exact He' ].
  rewrite bird_flap_twice. apply IH, Hrest.
Qed.

Lemma set_state_same (g : Game.t) : Game.set_state (Game.state g) g = g.
Proof. destruct g; reflexivity. Qed.

(** X4. Pause and resume is a round trip: two ESCAPE presses in a row give
    back the very game they found, in Playing and in Paused mode, and in
    the menu and on the game-over screen, where ESCAPE does nothing. *)
Theorem pause_resume_round_trip (g : Game.t) :
  Game.handle_input [KEYDOWN K_ESCAPE; KEYDOWN K_ESCAPE] g = (true, g).
Proof.
  cbn [Game.handle_input]. f_equal. unfold Game.handle_event. cbv zeta.
  destruct (Game.state g) eqn:S; proj; try rewrite S; try reflexivity;
    rewrite <- S; destruct g; reflexivity.
Qed.

Lemma handle_input_paused (events : list Event) (g : Game.t) :
  Game.state g = PAUSED -> existsb is_pause events = false ->
  snd (Game.handle_input events g) = g.
Proof.
  revert g. induction events as [|e rest IH]; intros g Hs H; [ reflexivity | ].
  cbn [existsb] in H. apply orb_false_iff in H. destruct H as [He Hrest].
  assert (Hg : Game.handle_event e g = g).
  { unfold Game.handle_event.
    destruct e as [|k| |]; try reflexivity;
      [ destruct k; try discriminate He | ];
      cbv zeta; try reflexivity; rewrite Hs; try rewrite Hs; reflexivity. }
  destruct e; cbn [Game.handle_input snd]; try reflexivity;
    rewrite Hg; apply IH; assumption.
Qed.

(** X5. A paused game stays frozen for as long as ESCAPE is not pressed:
    over any number of frames, whatever other events they bring and however
    long their ticks, the mode is Paused and the bird, the pipes, the score,
    the best score and the spawn timer are what they were. *)
Theorem paused_is_frozen (frames : list (list Event * float)) (g : Game.t) :
  Game.state g = PAUSED ->
  Forall (fun f => existsb is_pause (fst f) = false) frames ->
  let g' := run frames g in
  Game.state g' = PAUSED
  /\ Game.bird g' = Game.bird g /\ Game.pipes g' = Game.pipes g
  /\ Game.score g' = Game.score g /\ Game.high_score g' = Game.high_score g
  /\ Game.pipe_spawn_timer g' = Game.pipe_spawn_timer g.
Proof.
  revert g. induction frames as [|[events dt] rest IH]; intros g Hs Hf;
    cbv zeta.
  - cbn [run]. auto 10.
  - inversion Hf as [|f fs He Hrest]; subst. cbn [fst] in He.
    pose proof (handle_input_paused events g Hs He) as Hi.
    cbn [run]. unfold Game.frame.
    destruct (Game.handle_input events g) as [running g1]. cbn [snd] in Hi.
    subst g1.
    assert (Hu : Game.update dt g = Game.decay dt g)
      by (apply update_idle; congruence).
    assert (Hd : Game.state (Game.decay dt g) = PAUSED
                 /\ Game.bird (Game.decay dt g) = Game.bird g
                 /\ Game.pipes (Game.decay dt g) = Game.pipes g
                 /\ Game.score (Game.decay dt g) = Game.score g
                 /\ Game.high_score (Game.decay dt g) = Game.high_score g
                 /\ Game.pipe_spawn_timer (Game.decay dt g)
                    = Game.pipe_spawn_timer g)
      by (unfold Game.decay; cbv zeta; proj; auto 10).
    rewrite Hu. destruct Hd as (D1 & D2 & D3 & D4 & D5 & D6).
    destruct running; [ | auto 10 ].
    destruct (IH (Game.decay dt g) D1 Hrest) as (I1 & I2 & I3 & I4 & I5 & I6).
    repeat split; congruence.
Qed.

End EventFacts.

(** ** More on one tick *)

Section MoreTickFacts.
Context {L : PyLib}.

Lemma trailing_pipe_tick (bx : Z) (dt : float) (p : Pipe.t) :
  trailing (pipe_tick bx dt p) = trailing p - 4.
Proof.
  unfold pipe_tick, trailing.
  destruct (mark_passed_keeps bx (Pipe.update dt p)) as (Kx & _ & Kw).
  rewrite Kx, Kw. cbn [Pipe.update Pipe.x Pipe.width]. unfold PIPE_VELOCITY.
  lia.
Qed.

Lemma kept_iff (dt : float) (ps : list Pipe.t) (p : Pipe.t) :
  In p (kept dt ps) <-> In p ps /\ 4 <= trailing p.
Proof.
  unfold kept. rewrite filter_In.
  unfold Pipe.is_off_screen, trailing.
  cbn [Pipe.update Pipe.x Pipe.width]. unfold PIPE_VELOCITY.
  destruct (Z.ltb_spec (Pipe.x p + -4 + Pipe.width p) 0); cbn [negb];
    split; intros [H1 H2]; try discriminate H2; try lia;
    split; auto; lia.
Qed.

(** X6. A Playing tick drops a pipe exactly when the move takes its
    trailing edge left of the screen: a pipe whose trailing edge is at 4 or
    more before the move is found, moved, in the list after the tick; every
    pipe of the list after the tick has its trailing edge at 0 or more; and
    the list grows by one pipe at most. *)
Theorem off_screen_pipes_retire (dt : float) (g : Game.t) :
  Game.state g = PLAYING ->
  let bx := Bird.x (Game.bird g) in
  (forall p, In p (Game.pipes g) -> 4 <= trailing p ->
             In (pipe_tick bx dt p) (Game.pipes (Game.update dt g)))
  /\ (forall p, In p (Game.pipes g) -> trailing p < 4 ->
                ~ In (pipe_tick bx dt p) (Game.pipes (Game.update dt g)))
  /\ Forall (fun q => 0 <= trailing q) (Game.pipes (Game.update dt g))
  /\ (length (Game.pipes (Game.update dt g))
      <= length (Game.pipes g) + 1)%nat.
Proof.
  intros Hs. cbv zeta.
  destruct (update_playing dt g Hs) as (crash & pop & r & E & _).
  destruct (moved_pipes dt g) as (spawned & M & Hsp).
  rewrite E. proj. rewrite M, advanced_kept, map_app, map_map.
  fold (pipe_tick (Bird.x (Game.bird g)) dt).
  assert (Hall : Forall (fun q => 0 <= trailing q)
                   (map (pipe_tick (Bird.x (Game.bird g)) dt)
                      (kept dt (Game.pipes g))
                    ++ map (mark_passed (Bird.x (Game.bird g))) spawned)).
  { apply Forall_app. split.
    - apply Forall_forall. intros q Hq. apply in_map_iff in Hq.
      destruct Hq as (p & <- & Hp). rewrite trailing_pipe_tick.
      apply kept_iff in Hp. lia.
    - destruct Hsp as [->|[gap ->]]; [ constructor | ].
      constructor; [ | constructor ].
      unfold trailing.
      destruct (mark_passed_keeps (Bird.x (Game.bird g))
                  (Pipe.__init__ (SCREEN_WIDTH + 50) gap)) as (Kx & _ & Kw).
      rewrite Kx, Kw. cbn. lia. }
  split; [ | split; [ | split ] ].
  - intros p Hin Ht. apply in_or_app. left. apply in_map.
    apply kept_iff. auto.
  - intros p Hin Ht Hk. rewrite Forall_forall in Hall.
    specialize (Hall _ Hk). rewrite trailing_pipe_tick in Hall. lia.
  - exact Hall.
  - rewrite length_app, !length_map.
    assert (length (kept dt (Game.pipes g)) <= length (Game.pipes g))%nat
      by apply filter_length_le.
    destruct Hsp as [->|[gap ->]]; cbn [length]; lia.
Qed.

Lemma float_lt_le (a b : float) :
  (a <? b)%float = true -> (a <=? b)%float = true.
Proof.
  rewrite ltb_spec, leb_spec. unfold SFltb, SFleb.
  destruct (SFcompare (Prim2SF a) (Prim2SF b)) as [[ | | ]|];
    intros H; solve [ discriminate H | reflexivity ].
Qed.

(** X7. The rotation [Bird.update] leaves is three times the new velocity
    clamped to [-30, 90]: it is one of the three, and it lies in the closed
    range whatever the velocity, an infinity or NaN included. *)
Theorem rotation_clamped (dt : float) (b : Bird.t) :
  let b' := Bird.update dt b in
  (Bird.rotation b' = (Bird.velocity b' * 3)%float
   \/ Bird.rotation b' = (-30)%float \/ Bird.rotation b' = 90%float)
  /\ (-30 <=? Bird.rotation b')%float = true
  /\ (Bird.rotation b' <=? 90)%float = true.
Proof.
  cbv zeta. unfold Bird.update. cbn [Bird.rotation Bird.velocity].
  set (v3 := ((Bird.velocity b + GRAVITY) * 3)%float).
  unfold py_min, py_max.
  destruct (-30 <? v3)%float eqn:Lo.
  - destruct (v3 <? 90)%float eqn:Hi.
    + split; [ auto | ]. split; apply float_lt_le; assumption.
    + split; [ auto | ]. split; reflexivity.
  - replace (-30 <? 90)%float with true by reflexivity.
    split; [ auto | ]. split; reflexivity.
Qed.

Lemma score_particle_born (px py : float) (ps : list Particle.t) (r : rng) :
  exists p r',
    Game.score_particle px py (ps, r) = (ps ++ [p], r')
    /\ score_born px py p.
Proof.
  unfold Game.score_particle.
  destruct (uniform (- math_pi / 2) (- math_pi / 4) r) as [angle r1].
  destruct (uniform 2 4 r1) as [speed r2].
  destruct (uniform 2 4 r2) as [sz r3].
  eexists. eexists. split; [ reflexivity | ].
  unfold score_born. cbn. repeat split. eauto.
Qed.

(** X8. [create_score_particles] appends exactly five particles to the free
    pool, behind what the pool holds, each at the place given, gold, with
    1.0 s to live and the velocity [(cos angle * speed, sin angle * speed)]
    of its draws; it advances the generator and changes nothing else. *)
Theorem score_burst (px py : float) (g : Game.t) :
  exists new r,
    Game.create_score_particles px py g
    = Game.set_particles (Game.particles g ++ new) (Game.set_random r g)
    /\ length new = 5%nat /\ Forall (score_born px py) new.
Proof.
  destruct (iter_appends (Game.score_particle px py) (score_born px py)
              (score_particle_born px py) 5
              (Game.particles g) (Game.random g))
    as (new & r & E & Hlen & Hall).
  exists new, r. unfold Game.create_score_particles. rewrite E. auto.
Qed.

Lemma collision_particle_born (px py : float) (ps : list Particle.t)
  (r : rng) :
  exists p r',
    Game.collision_particle px py (ps, r) = (ps ++ [p], r')
    /\ collision_born px py p.
Proof.
  unfold Game.collision_particle.
  destruct (uniform 0 (2 * math_pi) r) as [angle r1].
  destruct (uniform 3 8 r1) as [speed r2].
  pose proof (randint_range 200 255 r2 ltac:(lia)) as H1.
  destruct (randint 200 255 r2) as [cr r3].
  pose proof (randint_range 100 200 r3 ltac:(lia)) as H2.
  destruct (randint 100 200 r3) as [cg r4].
  pose proof (randint_range 50 150 r4 ltac:(lia)) as H3.
  destruct (randint 50 150 r4) as [cb r5].
  destruct (uniform 3 6 r5) as [sz r6].
  eexists. eexists. split; [ reflexivity | ].
  unfold collision_born. cbn in *. repeat split; try lia. eauto.
Qed.

(** X9. [create_collision_particles] appends exactly ten particles to the
    free pool, behind what the pool holds, each at the place given, with
    0.8 s to live and a colour whose red is in [200, 255], green in
    [100, 200] and blue in [50, 150], a colour pygame accepts; it advances
    the generator and changes nothing else. *)
Theorem collision_burst (px py : float) (g : Game.t) :
  exists new r,
    Game.create_collision_particles px py g
    = Game.set_particles (Game.particles g ++ new) (Game.set_random r g)
    /\ length new = 10%nat /\ Forall (collision_born px py) new.
Proof.
  destruct (iter_appends (Game.collision_particle px py)
              (collision_born px py) (collision_particle_born px py) 10
              (Game.particles g) (Game.random g))
    as (new & r & E & Hlen & Hall).
  exists new, r. unfold Game.create_collision_particles. rewrite E. auto.
Qed.

Lemma hits_ignore_dt (dt1 dt2 : float) (b : Bird.t) (ps : list Pipe.t) :
  hits (Bird.update dt1 b) ps = hits (Bird.update dt2 b) ps.
Proof. reflexivity. Qed.

Lemma moved_pipes_ignore_dt (dt1 dt2 : float) (g : Game.t) :
  (Game.pipe_spawn_timer g - dt1 <=? 0)%float
  = (Game.pipe_spawn_timer g - dt2 <=? 0)%float ->
  Game.pipes (moved dt1 g) = Game.pipes (moved dt2 g).
Proof.
  intros H. destruct (Game.pipe_spawn_timer g - dt2 <=? 0)%float eqn:T.
  - destruct (moved_spawns dt1 g H) as (M1 & _).
    destruct (moved_spawns dt2 g T) as (M2 & _).
    rewrite M1, M2. reflexivity.
  - destruct (moved_waits dt1 g H) as (M1 & _).
    destruct (moved_waits dt2 g T) as (M2 & _).
    rewrite M1, M2. reflexivity.
Qed.

(** X10. The flight does not depend on the length of the tick.  Two Playing
    ticks of different [dt] from the same game, both serving the spawn
    timer the same way, leave the same mode, score and best score, the same
    pipes, and the bird at the same height with the same velocity and
    rotation: [dt] only reaches the timers and the aging of particles. *)
Theorem flight_ignores_dt (dt1 dt2 : float) (g : Game.t) :
  Game.state g = PLAYING ->
  (Game.pipe_spawn_timer g - dt1 <=? 0)%float
  = (Game.pipe_spawn_timer g - dt2 <=? 0)%float ->
  let g1 := Game.update dt1 g in
  let g2 := Game.update dt2 g in
  Game.state g1 = Game.state g2
  /\ Game.score g1 = Game.score g2
  /\ Game.high_score g1 = Game.high_score g2
  /\ Game.pipes g1 = Game.pipes g2
  /\ Bird.y (Game.bird g1) = Bird.y (Game.bird g2)
  /\ Bird.velocity (Game.bird g1) = Bird.velocity (Game.bird g2)
  /\ Bird.rotation (Game.bird g1) = Bird.rotation (Game.bird g2)
  /\ Game.shake_intensity g1 = Game.shake_intensity g2.
Proof.
  intros Hs Ht. cbv zeta.
  destruct (update_playing dt1 g Hs) as (c1 & p1 & r1 & E1 & _).
  destruct (update_playing dt2 g Hs) as (c2 & p2 & r2 & E2 & _).
  rewrite E1, E2. proj.
  pose proof (moved_pipes_ignore_dt dt1 dt2 g Ht) as Hp.
  assert (Hn : triggers (moved dt1 g) = triggers (moved dt2 g)).
  { unfold triggers. rewrite !moved_bird, Hp. reflexivity. }
  rewrite Hn, Hp. repeat split.
Qed.

End MoreTickFacts.

(** ** What every game keeps *)

Section Invariants.
Context {L : PyLib}.

Lemma session_ok_frame (g g' : Game.t) :
  session_ok g ->
  Bird.x (Game.bird g') = Bird.x (Game.bird g) ->
  Bird.size (Game.bird g') = Bird.size (Game.bird g) ->
  Game.pipe_spawn_interval g' = Game.pipe_spawn_interval g ->
  Game.frame_count g' = Game.frame_count g ->
  Game.particle_system g' = Game.particle_system g ->
  Game.score g' = Game.score g ->
  Game.high_score g' = Game.high_score g ->
  Game.pipes g' = Game.pipes g ->
  Game.shake_intensity g' = Game.shake_intensity g ->
  session_ok g'.
Proof.
  unfold session_ok. intros H E1 E2 E3 E4 E5 E6 E7 E8 E9.
  rewrite E1, E2, E3, E4, E5, E6, E7, E8, E9. exact H.
Qed.

Lemma session_ok_reset (s : GameState) (g : Game.t) :
  session_ok g -> session_ok (Game.reset_game (Game.set_state s g)).
Proof.
  unfold session_ok. intros (_ & _ & H3 & _ & _ & _ & H7 & _).
  unfold Game.reset_game, left_to_right. proj.
  repeat split; auto; try reflexivity; try constructor.
Qed.

Lemma flap_size (b : Bird.t) (r : rng) :
  Bird.size (fst (Bird.flap b r)) = Bird.size b.
Proof.
  unfold Bird.flap. destruct (_ <=? _)%float; [ | reflexivity ].
  destruct (Nat.iter 5 _ _). reflexivity.
Qed.

Lemma session_ok_flap (g : Game.t) :
  session_ok g -> session_ok (Game.bird_flap g).
Proof.
  intros H. apply (session_ok_frame g); auto; unfold Game.bird_flap;
    pose proof (flap_x (Game.bird g) (Game.random g)) as Hx;
    pose proof (flap_size (Game.bird g) (Game.random g)) as Hz;
    destruct (Bird.flap (Game.bird g) (Game.random g)); proj; auto.
Qed.

Lemma session_ok_event (e : Event) (g : Game.t) :
  session_ok g -> session_ok (Game.handle_event e g).
Proof.
  intros H.
  assert (Hs : forall s, session_ok (Game.set_state s g))
    by (intros s; apply (session_ok_frame g); auto).
  unfold Game.handle_event.
  destruct e as [|k| |]; try destruct k; cbv zeta;
    destruct (Game.state g) eqn:S; proj; try rewrite S; proj;
    auto using session_ok_reset, session_ok_flap.
Qed.

Lemma session_ok_input (events : list Event) (g : Game.t) :
  session_ok g -> session_ok (snd (Game.handle_input events g)).
Proof.
  revert g. induction events as [|e rest IH]; intros g H; [ exact H | ].
  destruct e; cbn [Game.handle_input snd]; try exact H;
    apply IH, session_ok_event, H.
Qed.

Lemma session_ok_draw (g g' : Game.t) :
  session_ok g -> Game.draw g = Some g' -> session_ok g'.
Proof.
  intros H D. unfold Game.draw in D.
  destruct (Game.shake_offset g) as [[o r]|]; [ | discriminate D ].
  injection D as <-. apply (session_ok_frame g); auto.
Qed.

Lemma shake_decays (s : float) :
  (s = 0%float \/ exists k, s = shake_level k) ->
  (s * 0.95)%float = 0%float \/ exists k, (s * 0.95)%float = shake_level k.
Proof.
  intros [->|[k ->]]; [ left; reflexivity | right; exists (S k); reflexivity ].
Qed.

Lemma pipe_tick_ok (bx : Z) (dt : float) (p : Pipe.t) :
  pipe_ok p -> 4 <= trailing p -> pipe_ok (pipe_tick bx dt p).
Proof.
  unfold pipe_ok. intros (H1 & H2 & H3 & H4 & H5) Hk.
  pose proof (trailing_pipe_tick bx dt p) as Ht.
  unfold pipe_tick in *.
  destruct (mark_passed_keeps bx (Pipe.update dt p)) as (Kx & Kg & Kw).
  rewrite Kx, Kg, Kw, Ht.
  cbn [Pipe.update Pipe.x Pipe.gap_y Pipe.width]. unfold PIPE_VELOCITY.
  repeat split; try assumption; try lia.
  replace (SCREEN_WIDTH + 50 - (Pipe.x p + -4))
    with (SCREEN_WIDTH + 50 - Pipe.x p + 1 * 4) by lia.
  rewrite Z.mod_add by lia. exact H5.
Qed.

Lemma new_pipe_ok (bx gap : Z) :
  MIN_PIPE_HEIGHT <= gap <= MAX_PIPE_HEIGHT ->
  pipe_ok (mark_passed bx (Pipe.__init__ (SCREEN_WIDTH + 50) gap)).
Proof.
  intros Hg. unfold pipe_ok, trailing.
  destruct (mark_passed_keeps bx (Pipe.__init__ (SCREEN_WIDTH + 50) gap))
    as (Kx & Kg & Kw).
  rewrite Kx, Kg, Kw. cbn [Pipe.__init__ Pipe.x Pipe.gap_y Pipe.width].
  unfold SCREEN_WIDTH in *.
  repeat split; try lia; reflexivity.
Qed.

(** The pipes a tick keeps stay in order when they move, and a pipe
    spawned at the right of the screen stands right of them all. *)
Lemma tick_left_to_right (bx : Z) (dt : float) (ps tail : list Pipe.t) :
  left_to_right ps ->
  Forall (fun p => Pipe.x p <= SCREEN_WIDTH + 50) ps ->
  (tail = [] \/ exists q, tail = [q] /\ Pipe.x q = SCREEN_WIDTH + 50) ->
  left_to_right (map (pipe_tick bx dt) (kept dt ps) ++ tail).
Proof.
  unfold left_to_right. intros Hs Hx Ht.
  assert (Kx : forall p, Pipe.x (pipe_tick bx dt p) = Pipe.x p - 4).
  { intros p. unfold pipe_tick.
    destruct (mark_passed_keeps bx (Pipe.update dt p)) as (K & _).
    rewrite K. cbn. unfold PIPE_VELOCITY. lia. }
  induction ps as [|p ps IH].
  - cbn. destruct Ht as [->|(q & -> & _)]; repeat constructor.
  - inversion Hs as [|p0 ps0 Hs' Hlt]; subst.
    inversion Hx as [|p0 ps0 Hp Hx']; subst.
    specialize (IH Hs' Hx').
    unfold kept in *. cbn [filter].
    destruct (negb (Pipe.is_off_screen (Pipe.update dt p))); [ | exact IH ].
    cbn [map app]. constructor; [ exact IH | ].
    apply Forall_app. split.
    + apply Forall_forall. intros q Hq. apply in_map_iff in Hq.
      destruct Hq as (p' & <- & Hp'). apply filter_In in Hp'.
      destruct Hp' as [Hp' _]. rewrite !Kx.
      rewrite Forall_forall in Hlt. specialize (Hlt _ Hp'). lia.
    + destruct Ht as [->|(q & -> & Hq)]; constructor; [ | constructor ].
      rewrite Kx, Hq. lia.
Qed.

Lemma points_le_length (bx : Z) (ps : list Pipe.t) :
  (points bx ps <= length ps)%nat.
Proof. unfold points. apply filter_length_le. Qed.

Lemma session_ok_update (dt : float) (g : Game.t) :
  session_ok g -> session_ok (Game.update dt g).
Proof.
  intros H. destruct (Game.state g) eqn:S.
  1, 3, 4:
    rewrite update_idle by congruence;
    destruct H as (H1 & H2 & H3 & H4 & H5 & H6 & H7 & H8 & H9 & H10);
    unfold session_ok, Game.decay; cbv zeta; proj;
    repeat split; auto; apply shake_decays; exact H10.
  destruct H as (H1 & H2 & H3 & H4 & H5 & H6 & H7 & H8 & H9 & H10).
  destruct (update_playing dt g S) as (crash & pop & r & E & _).
  destruct (Game.pipe_spawn_timer g - dt <=? 0)%float eqn:T.
  - destruct (moved_spawns dt g T) as (M & _ & Hgap).
    rewrite E. unfold session_ok. proj. rewrite M, advanced_kept.
    rewrite map_app, map_map.
    fold (pipe_tick (Bird.x (Game.bird g)) dt).
    repeat split; auto.
    + lia.
    + destruct (triggers (moved dt g)); lia.
    + apply Forall_app. split.
      * apply Forall_forall. intros q Hq. apply in_map_iff in Hq.
        destruct Hq as (p & <- & Hp). apply kept_iff in Hp.
        destruct Hp as [Hp Hk]. rewrite Forall_forall in H8.
        apply pipe_tick_ok; auto.
      * constructor; [ | constructor ]. apply new_pipe_ok, Hgap.
    + apply tick_left_to_right; auto.
      * eapply Forall_impl; [ | exact H8 ].
        intros p (_ & _ & _ & Hx & _). exact Hx.
      * right. eexists. split; [ reflexivity | ].
        match goal with
        | |- Pipe.x (mark_passed ?bx ?p) = _ =>
            destruct (mark_passed_keeps bx p) as (K & _); rewrite K
        end.
        reflexivity.
    + apply shake_decays. destruct (triggers (moved dt g));
        [ exact H10 | right; exists 0%nat; reflexivity ].
  - destruct (moved_waits dt g T) as (M & _).
    rewrite E. unfold session_ok. proj. rewrite M, advanced_kept, map_map.
    fold (pipe_tick (Bird.x (Game.bird g)) dt).
    repeat split; auto.
    + lia.
    + destruct (triggers (moved dt g)); lia.
    + apply Forall_forall. intros q Hq. apply in_map_iff in Hq.
      destruct Hq as (p & <- & Hp). apply kept_iff in Hp.
      destruct Hp as [Hp Hk]. rewrite Forall_forall in H8.
      apply pipe_tick_ok; auto.
    + rewrite <- (app_nil_r (map _ _)). apply tick_left_to_right; auto.
      eapply Forall_impl; [ | exact H8 ].
      intros p (_ & _ & _ & Hx & _). exact Hx.
    + apply shake_decays. destruct (triggers (moved dt g));
        [ exact H10 | right; exists 0%nat; reflexivity ].
Qed.

Lemma played_session_ok (g : Game.t) : played g -> session_ok g.
Proof.
  induction 1 as [r|events g _ IH|dt g _ IH|g g' _ IH D].
  - unfold session_ok, Game.__init__, Game.reset_game, left_to_right. proj.
    repeat split; auto; try reflexivity; try constructor.
  - apply session_ok_input, IH.
  - apply session_ok_update, IH.
  - apply (session_ok_draw g g' IH D).
Qed.

Lemma played_run (frames : list (list Event * float)) (g : Game.t) :
  played g -> played (run frames g).
Proof.
  revert g. induction frames as [|[events dt] rest IH]; intros g H;
    [ exact H | ].
  cbn [run]. unfold Game.frame.
  pose proof (played_update dt _ (played_input events g H)) as H1.
  destruct (Game.handle_input events g) as [running g1]. cbn [snd] in H1.
  destruct running; auto.
Qed.

End Invariants.

Section PlayedFacts.
Context {L : PyLib}.

(** X11. Some attributes never change on any game the program can be in:
    the bird stays at x = 100 with size 16 and the spawn interval at 2.0 s;
    [frame_count] is never counted up from 0 and [particle_system] never
    holds a particle. *)
Theorem session_constants (g : Game.t) :
  played g ->
  Bird.x (Game.bird g) = 100 /\ Bird.size (Game.bird g) = 16
  /\ Game.pipe_spawn_interval g = 2.0%float
  /\ Game.frame_count g = 0 /\ Game.particle_system g = [].
Proof.
  intros H. destruct (played_session_ok g H) as (H1 & H2 & H3 & H4 & H5 & _).
  auto.
Qed.

(** X12. On any game the program can be in every pipe is 50 wide, has its
    gap between 50 and 430, stands on the 4 px grid that starts at x = 450,
    at 450 or left of it with its trailing edge at 0 or right of it; and
    the pipes stand in the list from left to right, no two at the same
    place. *)
Theorem pipes_in_order (g : Game.t) :
  played g ->
  Forall pipe_ok (Game.pipes g) /\ left_to_right (Game.pipes g).
Proof.
  intros H.
  destruct (played_session_ok g H) as (_ & _ & _ & _ & _ & _ & _ & H8 & H9 & _).
  auto.
Qed.

Lemma grid_length (ps : list Pipe.t) :
  forall lo,
    left_to_right ps ->
    Forall (fun p => lo <= Pipe.x p <= 450 /\ (450 - Pipe.x p) mod 4 = 0) ps ->
    lo <= 454 ->
    4 * Z.of_nat (length ps) <= 454 - lo.
Proof.
  unfold left_to_right.
  induction ps as [|p ps IH]; intros lo Hs Hall Hlo; [ cbn [length]; lia | ].
  inversion Hs as [|p0 ps0 Hs' Hlt]; subst.
  inversion Hall as [|p0 ps0 [Hp Hm] Hall']; subst.
  assert (Hnext : Forall (fun q => Pipe.x p + 4 <= Pipe.x q <= 450
                                   /\ (450 - Pipe.x q) mod 4 = 0) ps).
  { rewrite Forall_forall in *. intros q Hq.
    destruct (Hall' q Hq) as [Hq1 Hq2]. specialize (Hlt q Hq).
    split; [ | exact Hq2 ].
    apply Z.mod_divide in Hm; [ | lia ]. apply Z.mod_divide in Hq2; [ | lia ].
    destruct Hm as [a Ha]. destruct Hq2 as [b Hb]. lia. }
  specialize (IH (Pipe.x p + 4) Hs' Hnext ltac:(lia)).
  cbn [length]. lia.
Qed.

(** X13. The game never holds more than 126 pipes, however short the spawn
    timer is served: there are no more places between the spawn place and
    the left edge of the screen. *)
Theorem at_most_126_pipes (g : Game.t) :
  played g -> (length (Game.pipes g) <= 126)%nat.
Proof.
  intros H.
  destruct (played_session_ok g H) as (_ & _ & _ & _ & _ & _ & _ & H8 & H9 & _).
  assert (Hb : 4 * Z.of_nat (length (Game.pipes g)) <= 454 - (-50)).
  { apply grid_length; [ exact H9 | | lia ].
    eapply Forall_impl; [ | exact H8 ].
    intros p (Hw & _ & Ht & Hx & Hm). unfold trailing, SCREEN_WIDTH in *.
    split; [ lia | exact Hm ]. }
  lia.
Qed.

Lemma played_scored (g : Game.t) : played g -> scored_or_ahead g.
Proof.
  induction 1 as [r|events g _ IH|dt g _ IH|g g' _ IH D].
  - split; [ reflexivity | intros p [] ].
  - apply handle_input_scored, IH.
  - apply update_scored, IH.
  - unfold Game.draw in D.
    destruct (Game.shake_offset g) as [[o r]|]; [ | discriminate D ].
    injection D as <-. exact IH.
Qed.

(** In a list of pipes in order, at most one stands at a given place. *)
Lemma one_pipe_per_place (f : Pipe.t -> bool) (x0 : Z) (ps : list Pipe.t) :
  left_to_right ps ->
  (forall p, In p ps -> f p = true -> Pipe.x p = x0) ->
  (length (filter f ps) <= 1)%nat.
Proof.
  unfold left_to_right. induction ps as [|p ps IH]; intros Hs Hf;
    [ cbn; lia | ].
  inversion Hs as [|p0 ps0 Hs' Hlt]; subst. cbn [filter].
  destruct (f p) eqn:Fp.
  - assert (Hnone : filter f ps = []).
    { destruct (filter f ps) as [|q l] eqn:E; [ reflexivity | exfalso ].
      assert (Hq : In q (filter f ps)) by (rewrite E; left; reflexivity).
      apply filter_In in Hq. destruct Hq as [Hq Fq].
      rewrite Forall_forall in Hlt. specialize (Hlt q Hq).
      pose proof (Hf p (or_introl eq_refl) Fp).
      pose proof (Hf q (or_intror Hq) Fq). lia. }
    rewrite Hnone. cbn. lia.
  - apply IH; [ exact Hs' | ]. intros q Hq. apply Hf. right. exact Hq.
Qed.

(** X14. On any game the program can be in the score and the best score
    are not negative, and a tick never takes a point back nor gives more
    than one: at most one pipe can have its trailing edge fall behind the
    bird in one tick. *)
Theorem one_point_per_tick (g : Game.t) :
  played g ->
  0 <= Game.score g /\ 0 <= Game.high_score g
  /\ forall dt,
       Game.score g <= Game.score (Game.update dt g) <= Game.score g + 1.
Proof.
  intros H.
  destruct (played_session_ok g H)
    as (Hx & _ & _ & _ & _ & H6 & H7 & H8 & H9 & _).
  destruct (played_scored g H) as [_ Hahead].
  split; [ exact H6 | ]. split; [ exact H7 | ]. intros dt.
  destruct (Game.state g) eqn:S.
  1, 3, 4:
    rewrite update_idle by congruence; unfold Game.decay; cbv zeta; proj; lia.
  destruct (update_playing dt g S) as (crash & pop & r & E & _).
  destruct (moved_pipes dt g) as (spawned & M & Hsp).
  rewrite E. proj. rewrite M, advanced_kept, points_app, points_moved, Hx.
  assert (Hnew : points 100 spawned = 0%nat)
    by (destruct Hsp as [->|[gap ->]]; reflexivity).
  assert (Hone : (length (filter (fun p => credit 100 dt p 0)
                            (kept dt (Game.pipes g))) <= 1)%nat).
  { assert (Hle : forall (f : Pipe.t -> bool) l,
               (length (filter f (kept dt l)) <= length (filter f l))%nat).
    { intros f l. unfold kept. induction l as [|a l IHl]; [ cbn; lia | ].
      cbn [filter].
      destruct (negb (Pipe.is_off_screen (Pipe.update dt a))); cbn [filter];
        destruct (f a); cbn [length]; lia. }
    eapply Nat.le_trans; [ apply Hle | ].
    apply (one_pipe_per_place _ 50); [ exact H9 | ].
    intros p Hp Hc. rewrite Forall_forall in H8.
    destruct (H8 p Hp) as (Hw & _ & _ & Hx450 & Hm).
    destruct (Hahead p Hp) as [_ Hpa].
    unfold credit in Hc. cbn [pipe_after] in Hc.
    unfold Game.just_passed, PIPE_VELOCITY in Hc.
    cbn [Pipe.update Pipe.x Pipe.width Pipe.passed] in Hc.
    apply andb_true_iff in Hc. destruct Hc as [Hnp Hlt].
    apply Z.ltb_lt in Hlt. apply negb_true_iff in Hnp.
    destruct Hpa as [Hpa|Hpa]; [ congruence | ].
    unfold trailing, SCREEN_WIDTH, PIPE_VELOCITY in *.
    apply Z.mod_divide in Hm; [ | lia ]. destruct Hm as [a Ha]. lia. }
  rewrite Hnew. lia.
Qed.

Lemma levels_small_spec (n : nat) :
  forall s,
    levels_small n s = true ->
    forall k, (k < n)%nat ->
      (0 <? Nat.iter k (fun s => s * 0.95) s)%float = true
      /\ py_int (Nat.iter k (fun s => s * 0.95) s * 5)%float = Some 0.
Proof.
  induction n as [|n IH]; intros s H k Hk; [ lia | ].
  cbn [levels_small] in H. apply andb_true_iff in H. destruct H as [H H3].
  apply andb_true_iff in H. destruct H as [H1 H2].
  destruct k as [|k].
  - cbn [Nat.iter nat_rect]. split; [ exact H1 | ].
    destruct (py_int (s * 5)) as [[| |]|]; try discriminate H2. reflexivity.
  - rewrite Nat.iter_succ_r. apply IH; [ exact H3 | lia ].
Qed.

Lemma shake_levels_checked : levels_small (Z.to_nat 14423) 0.1%float = true.
Proof. vm_compute. reflexivity. Qed.

Lemma shake_level_settles :
  shake_level (S (Z.to_nat 14422)) = shake_level (Z.to_nat 14422).
Proof. vm_compute. reflexivity. Qed.

Lemma shake_level_late (k : nat) :
  shake_level (Z.to_nat 14422 + k) = shake_level (Z.to_nat 14422).
Proof.
  induction k as [|k IH]; [ rewrite Nat.add_0_r; reflexivity | ].
  rewrite Nat.add_succ_r. unfold shake_level in *.
  cbn [Nat.iter nat_rect]. fold (Nat.iter (Z.to_nat 14422 + k)
                                   (fun s => (s * 0.95)%float) 0.1%float).
  rewrite IH. exact shake_level_settles.
Qed.

Lemma shake_level_small (k : nat) :
  (0 <? shake_level k)%float = true
  /\ py_int (shake_level k * 5)%float = Some 0.
Proof.
  destruct (Nat.lt_ge_cases k (Z.to_nat 14423)) as [Hk|Hk].
  - apply (levels_small_spec _ _ shake_levels_checked k Hk).
  - replace k with (Z.to_nat 14422 + (k - Z.to_nat 14422))%nat by lia.
    rewrite shake_level_late.
    apply (levels_small_spec _ _ shake_levels_checked (Z.to_nat 14422)).
    lia.
Qed.

(** X15. The screen shake never moves the frame.  On any game the program
    can be in, either the shake is 0 and [draw] takes no offset, or the
    shake is positive and both offsets [draw] draws are 0: a collision sets
    the shake to 0.1, [int(shake_intensity * 5)] is 0 from there on, and
    [random.randint(0, 0)] is 0.  The shake, decayed by 0.95 a tick in
    binary64, stays positive for good, so [draw] goes on drawing the two
    offsets; and [draw] never raises. *)
Theorem shake_never_moves (g : Game.t) :
  played g ->
  ((Game.shake_intensity g = 0%float
    /\ Game.shake_offset g = Some (None, Game.random g))
   \/ ((0 <? Game.shake_intensity g)%float = true
       /\ exists r, Game.shake_offset g = Some (Some (0, 0), r)))
  /\ Game.draw g <> None.
Proof.
  intros H.
  destruct (played_session_ok g H) as (_ & _ & _ & _ & _ & _ & _ & _ & _ & Hs).
  assert (Ho : (Game.shake_intensity g = 0%float
                /\ Game.shake_offset g = Some (None, Game.random g))
               \/ ((0 <? Game.shake_intensity g)%float = true
                   /\ exists r, Game.shake_offset g = Some (Some (0, 0), r))).
  { unfold Game.shake_offset. destruct Hs as [Hs|[k Hs]]; rewrite Hs.
    - left. split; reflexivity.
    - right. destruct (shake_level_small k) as [Hpos Hint].
      rewrite Hpos, Hint. split; [ reflexivity | ].
      change (- 0) with 0.
      pose proof (randint_range 0 0 (Game.random g) ltac:(lia)) as R1.
      destruct (randint 0 0 (Game.random g)) as [sx r1]. cbn [fst] in R1.
      pose proof (randint_range 0 0 r1 ltac:(lia)) as R2.
      destruct (randint 0 0 r1) as [sy r2]. cbn [fst] in R2.
      exists r2. repeat f_equal; lia. }
  split; [ exact Ho | ].
  unfold Game.draw.
  destruct Ho as [[_ E]|[_ [r E]]]; rewrite E; discriminate.
Qed.

(** X16. What [Pipe.draw] draws of a pipe of any game the program can be in
    stays between the ceiling and the ground, and each of its two stubs is
    at least 50 px tall: the top stub from 0 down to the gap, the bottom
    stub from the end of the gap down to 600. *)
Theorem stubs_on_canvas (g : Game.t) (p : Pipe.t) :
  played g -> In p (Game.pipes g) ->
  Forall on_canvas (Pipe.draw p)
  /\ Pipe.draw p
     = [ Draw.rect COLOR_PIPE (Pipe.x p) 0 50 (Pipe.gap_y p) 0;
         Draw.rect COLOR_PIPE_DARK (Pipe.x p) 0 50 (Pipe.gap_y p) 2;
         Draw.line COLOR_PIPE_SHINE (Pipe.x p + 5, 0)
           (Pipe.x p + 5, Pipe.gap_y p) 1;
         Draw.rect COLOR_PIPE (Pipe.x p) (Pipe.gap_y p + 120) 50
           (480 - Pipe.gap_y p) 0;
         Draw.rect COLOR_PIPE_DARK (Pipe.x p) (Pipe.gap_y p + 120) 50
           (480 - Pipe.gap_y p) 2;
         Draw.line COLOR_PIPE_SHINE (Pipe.x p + 5, Pipe.gap_y p + 120)
           (Pipe.x p + 5, 600) 1 ].
Proof.
  intros H Hin.
  destruct (played_session_ok g H) as (_ & _ & _ & _ & _ & _ & _ & H8 & _).
  rewrite Forall_forall in H8. destruct (H8 p Hin) as (Hw & Hgap & _).
  unfold Pipe.draw, on_canvas, MAX_PIPE_HEIGHT, MIN_PIPE_HEIGHT,
    SCREEN_HEIGHT, PIPE_GAP in *.
  cbv zeta. rewrite Hw. split.
  - repeat constructor; lia.
  - replace (600 - (Pipe.gap_y p + 120)) with (480 - Pipe.gap_y p) by lia.
    replace (Pipe.gap_y p + 120 + (480 - Pipe.gap_y p)) with 600 by lia.
    reflexivity.
Qed.

End PlayedFacts.

(** ** Particles *)

(** Two floats that Python's [==] takes as equal pass or fail the test
    [<= 0] together. *)
Lemma float_eq_same_test (a b : float) :
  (a =? b)%float = true -> (a <=? 0)%float = (b <=? 0)%float.
Proof.
  rewrite eqb_spec, !leb_spec.
  replace (Prim2SF 0) with (S754_zero false) by reflexivity.
  unfold SFeqb, SFleb.
  destruct (Prim2SF a) as [sa|sa| |sa ma ea], (Prim2SF b) as [sb|sb| |sb mb eb];
    try destruct sa; try destruct sb; simpl; intros H;
    try reflexivity; discriminate H.
Qed.

Lemma eqb_lifetime (p q : Particle.t) :
  Particle.eqb p q = true ->
  (Particle.lifetime p =? Particle.lifetime q)%float = true.
Proof.
  unfold Particle.eqb. intros H.
  repeat (apply andb_true_iff in H; destruct H as [H ?]). assumption.
Qed.

Section AgingLoop.
Variable same_fields : Particle.t -> Particle.t -> bool.
Hypothesis same_fields_lifetime :
  forall p q,
    same_fields p q = true ->
    Particle.lifetime p = Particle.lifetime q
    \/ (Particle.lifetime p =? Particle.lifetime q)%float = true.

Lemma same_fields_expired (p q : Particle.t) :
  same_fields p q = true -> Particle.expired p = Particle.expired q.
Proof.
  intros H. unfold Particle.expired.
  destruct (same_fields_lifetime p q H) as [E|E];
    [ rewrite E; reflexivity | apply float_eq_same_test, E ].
Qed.

Lemma update_object_other (dt : float) (o : Particle.obj)
  (l : list Particle.obj) :
  ~ In (Particle.ident o) (map Particle.ident l) ->
  Particle.update_object dt o l = l.
Proof.
  unfold Particle.update_object. induction l as [|e l IH]; intros H;
    [ reflexivity | ].
  cbn [map] in *. destruct (Nat.eqb_spec (Particle.ident e) (Particle.ident o)).
  - exfalso. apply H. left. assumption.
  - rewrite IH; [ reflexivity | ]. intros Hin. apply H. right. exact Hin.
Qed.

Lemma update_object_here (dt : float) (o : Particle.obj)
  (done rest : list Particle.obj) :
  NoDup (map Particle.ident (done ++ o :: rest)) ->
  Particle.update_object dt o (done ++ o :: rest)
  = done
    ++ {| Particle.ident := Particle.ident o;
          Particle.val := Particle.update dt (Particle.val o) |} :: rest.
Proof.
  intros H. rewrite map_app in H. cbn [map] in H.
  pose proof (NoDup_remove_2 _ _ _ H) as Hnot.
  assert (Hd : ~ In (Particle.ident o) (map Particle.ident done))
    by (intros Hin; apply Hnot, in_or_app; left; exact Hin).
  assert (Hr : ~ In (Particle.ident o) (map Particle.ident rest))
    by (intros Hin; apply Hnot, in_or_app; right; exact Hin).
  pose proof (update_object_other dt o done Hd) as Ed.
  pose proof (update_object_other dt o rest Hr) as Er.
  unfold Particle.update_object in *. rewrite map_app. cbn [map].
  rewrite Ed, Er, Nat.eqb_refl. reflexivity.
Qed.

Lemma list_remove_here (v : Particle.obj) (done rest : list Particle.obj) :
  (forall e, In e done ->
             Particle.ident e <> Particle.ident v
             /\ same_fields (Particle.val e) (Particle.val v) = false) ->
  Particle.list_remove same_fields v (done ++ v :: rest) = done ++ rest.
Proof.
  induction done as [|e done IH]; intros H.
  - cbn. rewrite Nat.eqb_refl. reflexivity.
  - cbn [app Particle.list_remove].
    destruct (H e (or_introl eq_refl)) as [Hid Hf].
    apply Nat.eqb_neq in Hid. rewrite Hid, Hf. cbn [orb].
    rewrite IH; [ reflexivity | ]. intros e' He'. apply H. right. exact He'.
Qed.

Lemma aging_loop_inv (dt : float) (rest : list Particle.obj) :
  forall done,
    NoDup (map Particle.ident (done ++ rest)) ->
    Forall (fun e => Particle.expired (Particle.val e) = false) done ->
    Particle.aging_loop same_fields dt rest (done ++ rest)
    = done
      ++ filter (fun e => negb (Particle.expired (Particle.val e)))
           (map (fun e => {| Particle.ident := Particle.ident e;
                             Particle.val :=
                               Particle.update dt (Particle.val e) |})
              rest).
Proof.
  induction rest as [|o rest IH]; intros done Hnd Hdone.
  - cbn. reflexivity.
  - cbn [Particle.aging_loop map filter]. cbv zeta.
    rewrite (update_object_here dt o done rest Hnd).
    cbn [Particle.val].
    set (o' := {| Particle.ident := Particle.ident o;
                  Particle.val := Particle.update dt (Particle.val o) |}).
    destruct (Particle.expired (Particle.update dt (Particle.val o))) eqn:X.
    + cbn [negb]. rewrite list_remove_here.
      * apply IH; [ | exact Hdone ].
        rewrite map_app in *. cbn [map] in Hnd.
        apply NoDup_remove_1 in Hnd. exact Hnd.
      * intros e He. split.
        -- intros Hid. rewrite map_app in Hnd. cbn [map] in Hnd.
           apply NoDup_remove_2 in Hnd. apply Hnd, in_or_app. left.
           apply in_map_iff. exists e. split; [ exact Hid | exact He ].
        -- destruct (same_fields (Particle.val e) (Particle.val o')) eqn:F;
             [ | reflexivity ].
           apply same_fields_expired in F. cbn [Particle.val o'] in F.
           rewrite Forall_forall in Hdone. rewrite (Hdone e He) in F.
           unfold o' in F. cbn [Particle.val] in F. congruence.
    + cbn [negb].
      replace (done ++ o' :: rest) with ((done ++ [o']) ++ rest)
        by (rewrite <- app_assoc; reflexivity).
      rewrite IH.
      * rewrite <- app_assoc. reflexivity.
      * rewrite <- app_assoc. cbn [app].
        rewrite map_app in *. cbn [map] in *. exact Hnd.
      * apply Forall_app. split; [ exact Hdone | ].
        constructor; [ exact X | constructor ].
Qed.

Lemma map_val_filter (dt : float) (l : list Particle.obj) :
  map Particle.val
    (filter (fun e => negb (Particle.expired (Particle.val e)))
       (map (fun e => {| Particle.ident := Particle.ident e;
                         Particle.val := Particle.update dt (Particle.val e) |})
          l))
  = Particle.update_all dt (map Particle.val l).
Proof.
  unfold Particle.update_all. induction l as [|e l IH]; [ reflexivity | ].
  cbn [map filter Particle.val].
  destruct (Particle.expired (Particle.update dt (Particle.val e)));
    cbn [negb map Particle.val]; rewrite IH; reflexivity.
Qed.

(** X17. The aging loop that [Bird.update] and [Game.update] run on their
    particles, [for particle in ps[:]: particle.update(dt); if
    particle.lifetime <= 0: ps.remove(particle)], followed statement by
    statement on a list of distinct objects, leaves what [update_all]
    computes: every particle updated exactly once, the ones with
    [lifetime <= 0] gone, the others in their order.  [remove] never takes
    out another particle than the one meant, although it goes by equality
    of the fields.  No particle left has [lifetime <= 0], and none is
    added. *)
Theorem aging_loop_filters (dt : float) (l : list Particle.obj) :
  NoDup (map Particle.ident l) ->
  map Particle.val (Particle.aging_loop same_fields dt l l)
  = Particle.update_all dt (map Particle.val l)
  /\ Forall (fun p => Particle.expired p = false)
       (Particle.update_all dt (map Particle.val l))
  /\ (length (Particle.update_all dt (map Particle.val l)) <= length l)%nat.
Proof.
  intros Hnd. split; [ | split ].
  - rewrite <- map_val_filter.
    pose proof (aging_loop_inv dt l [] Hnd (Forall_nil _)) as E.
    cbn [app] in E. rewrite E. reflexivity.
  - unfold Particle.update_all. apply Forall_forall. intros p Hp.
    apply filter_In in Hp. destruct Hp as [_ Hp].
    apply negb_true_iff in Hp. exact Hp.
  - unfold Particle.update_all.
    eapply Nat.le_trans; [ apply filter_length_le | ].
    rewrite !length_map. lia.
Qed.

End AgingLoop.

Lemma max_one_le (z : Z) : 1 <= Z.max 1 z.
Proof. lia. Qed.

(** X18. [Particle.draw] draws nothing of a particle whose lifetime is not
    positive, and of any other exactly one circle, in the particle's own
    colour, centred on the integer parts of its coordinates, with the
    integer part of its size for radius but never less than 1, however far
    the size has decayed. *)
Theorem particle_draw_clamps (p : Particle.t) :
  ((0 <? Particle.lifetime p)%float = false -> Particle.draw p = Some [])
  /\ (forall cmds,
        (0 <? Particle.lifetime p)%float = true ->
        Particle.draw p = Some cmds ->
        exists cx cy sz,
          py_int (Particle.x p) = Some cx /\ py_int (Particle.y p) = Some cy
          /\ py_int (Particle.size p) = Some sz
          /\ cmds = [Draw.circle (Particle.color p) (cx, cy) (Z.max 1 sz)]
          /\ 1 <= Z.max 1 sz).
Proof.
  unfold Particle.draw. split.
  - intros H. rewrite H. reflexivity.
  - intros cmds H D. rewrite H in D.
    destruct (py_int (255 * (Particle.lifetime p / 1))) as [alpha|];
      [ | discriminate D ].
    destruct (py_int (Particle.x p)) as [cx|]; [ | discriminate D ].
    destruct (py_int (Particle.y p)) as [cy|]; [ | discriminate D ].
    destruct (py_int (Particle.size p)) as [sz|]; [ | discriminate D ].
    injection D as <-. exists cx, cy, sz.
    repeat split; auto. apply max_one_le.
Qed.

(** ** Concrete runs *)

Section RunFacts.
Context {L : PyLib}.

Lemma reachable_run (frames : list (list Event * float)) (g : Game.t) :
  reachable g -> reachable (run frames g).
Proof.
  revert g. induction frames as [|[events dt] rest IH]; intros g H;
    [ exact H | ].
  cbn [run]. unfold Game.frame.
  pose proof (reach_update dt _ (reach_input events g H)) as H1.
  destruct (Game.handle_input events g) as [running g1]. cbn [snd] in H1.
  destruct running; auto.
Qed.

End RunFacts.

Import TestLib.

(** C4 (the code at the failing input). A whole game from the constructor:
    the run of [Scenario.last_flight].  After 221 frames the mode is
    Playing and the score 0.  In frame 222 the bird rises into the top stub
    of the pipe: the collision blocks set the mode to GameOver and compare
    the score, still 0, with the best score; then the scoring loop of the
    same tick finds the trailing edge of that pipe behind the bird and
    gives the point.  The tick ends in GameOver mode with score 1 and best
    score 0. *)
Example score_after_game_over :
  let g := Scenario.before_crash in
  let g2 := Game.check_bounds (Game.check_pipes (moved dt60 g)) in
  reachable g
  /\ Game.state g = PLAYING /\ Game.score g = 0
  /\ Game.state g2 = GAME_OVER /\ Game.score g2 = 0
  /\ Game.score (snd (Game.check_passed (Game.pipes g2) g2)) = 1
  /\ Game.state (Game.update dt60 g) = GAME_OVER
  /\ Game.score (Game.update dt60 g) = 1
  /\ Game.high_score (Game.update dt60 g) = 0.
Proof.
  cbv zeta. split.
  - unfold Scenario.before_crash. apply reachable_run, reach_init.
  - repeat split; vm_compute; reflexivity.
Qed.

(** *** The theorems on concrete games *)

(** [flap_cooldown_gate] on a bird on cooldown and on one that is not. *)
Lemma flap_cooldown_gate_witness :
  Bird.flap Scenario.hot_bird 7 = (Scenario.hot_bird, 7)
  /\ Bird.velocity (fst (Bird.flap Scenario.cold_bird 7)) = (-9)%float.
Proof.
  split.
  - exact (proj1 (flap_cooldown_gate Scenario.hot_bird 7) eq_refl).
  - exact (proj1 (proj2 (flap_cooldown_gate Scenario.cold_bird 7) eq_refl)).
Defined.


(** [stacked_collisions] on a bird at the ceiling under a pipe: two
    collisions. *)
Lemma stacked_collisions_witness :
  Game.state Scenario.pinned = PLAYING
  /\ Game.out_of_bounds (Game.bird (moved dt60 Scenario.pinned)) = true
  /\ Game.check_bounds (Game.check_pipes (moved dt60 Scenario.pinned))
     = Nat.iter 2 Game.game_over (moved dt60 Scenario.pinned).
Proof.
  assert (H1 : Game.state Scenario.pinned = PLAYING) by reflexivity.
  assert (H2 : Game.out_of_bounds (Game.bird (moved dt60 Scenario.pinned))
               = true) by (vm_compute; reflexivity).
  split; [ exact H1 | ]. split; [ exact H2 | ].
  exact (proj1 (stacked_collisions dt60 Scenario.pinned H1 H2)).
Defined.

(** [boundary_breach] on a bird put at y = 0. *)
Lemma boundary_breach_witness :
  Game.state (Scenario.bird_at 0 0) = PLAYING
  /\ Game.state (Game.update dt60 (Scenario.bird_at 0 0)) = GAME_OVER
  /\ Game.shake_intensity (Game.update dt60 (Scenario.bird_at 0 0))
     = (0.1 * 0.95)%float.
Proof.
  assert (H1 : Game.state (Scenario.bird_at 0 0) = PLAYING) by reflexivity.
  pose proof (boundary_breach dt60 (Scenario.bird_at 0 0) H1
                (or_introl eq_refl)) as (W1 & _ & W3 & _).
  auto.
Defined.

(** [collision_geometry] on a bird in the gap of a pipe. *)
Lemma collision_geometry_witness :
  Game.state Scenario.threading = PLAYING
  /\ Game.state (Game.update dt60 Scenario.threading) = PLAYING.
Proof.
  assert (H1 : Game.state Scenario.threading = PLAYING) by reflexivity.
  split; [ exact H1 | ].
  apply (proj2 (proj2 (@collision_geometry TestLib.lib)) dt60 Scenario.threading H1).
  - intros p Hin. vm_compute in Hin. destruct Hin as [<-|[]].
    right. right. split; vm_compute; intros HH; discriminate HH.
  - split; vm_compute; reflexivity.
Defined.

(** [mode_machine] on Activate in the menu. *)
Lemma mode_machine_witness :
  Game.state (Game.handle_event (KEYDOWN K_SPACE) Scenario.menu) = PLAYING.
Proof.
  rewrite (proj1 (@mode_machine TestLib.lib) (KEYDOWN K_SPACE) Scenario.menu
             eq_refl eq_refl).
  reflexivity.
Defined.


(** [score_once] on the game the constructor builds and on a new pipe, which
    gives its point in tick 101 of its life. *)
Lemma score_once_witness :
  Bird.x (Game.bird Scenario.menu) = 100
  /\ credit 100 dt60 (Pipe.__init__ 450 94) 100 = true.
Proof.
  split.
  - exact (proj1 (proj2 (proj2 (proj2 (proj2 (proj2 (@score_once TestLib.lib)))))
                    Scenario.menu (@reach_init TestLib.lib 0%Z))).
  - apply (proj1 (proj2 (@score_once TestLib.lib)) 100 dt60 (Pipe.__init__ 450 94) 100%nat
             eq_refl).
    split; [ reflexivity | right; intros HH; discriminate HH ].
Defined.

(** *** Where the specification and the program part *)

(** C1. A pointer press is an Activate command; in GameOver mode it leads
    to Playing, not to the menu. *)
Lemma click_restarts :
  is_activate MOUSEBUTTONDOWN = true
  /\ Game.state Scenario.crashed = GAME_OVER
  /\ Game.state (snd (Game.handle_input [MOUSEBUTTONDOWN] Scenario.crashed))
     = PLAYING
  /\ Game.state (snd (Game.handle_input [MOUSEBUTTONDOWN] Scenario.crashed))
     <> MENU.
Proof.
  repeat split; try (vm_compute; reflexivity).
  vm_compute. discriminate.
Qed.

(** C5. A bird whose square, after the move, is [0, 32] vertically, inside
    [0, 600], with no pipe at all: the tick ends the run, because touching
    the ceiling counts. *)
Lemma touching_ceiling_ends_run :
  let g := Scenario.bird_at 16 (-0.4) in
  let b := Bird.update dt60 (Game.bird g) in
  Game.state g = PLAYING
  /\ Game.pipes (moved dt60 g) = []
  /\ (0 <=? Bird.y b - 16)%float = true
  /\ (Bird.y b + 16 <=? 600)%float = true
  /\ Game.state (Game.update dt60 g) = GAME_OVER.
Proof.
  repeat split; vm_compute; reflexivity.
Qed.

(** C6. With the bird put at y = 0 the tick ends in GameOver mode with the
    shake at 0.095, not 0.1: it has decayed once already.  And with the
    bird put at y = 0 while falling at 20 px per tick, the move takes it
    below the ceiling and the tick ends in Playing mode. *)
Lemma ceiling_tick_differs :
  Game.state (Game.update dt60 (Scenario.bird_at 0 0)) = GAME_OVER
  /\ Game.shake_intensity (Game.update dt60 (Scenario.bird_at 0 0))
     <> 0.1%float
  /\ Game.state (Game.update dt60 (Scenario.bird_at 0 20)) = PLAYING.
Proof.
  repeat split; try (vm_compute; reflexivity).
  intros H.
  apply (f_equal (fun x => (x =? 0.1)%float)) in H.
  vm_compute in H. discriminate H.
Qed.


(** *** More theorems on concrete games *)

Lemma fresh_played : played Scenario.fresh.
Proof. apply played_input, played_init. Qed.

Lemma crashed_played : played Scenario.crashed.
Proof. apply played_run, fresh_played. Qed.

Lemma first_pipe_played : played Scenario.first_pipe.
Proof. apply played_run, fresh_played. Qed.


(** [activate_spam] on a key, a click and a key in one frame. *)
Lemma activate_spam_witness :
  Game.handle_input [KEYDOWN K_SPACE; MOUSEBUTTONDOWN; KEYDOWN K_UP]
    Scenario.fresh
  = (true, Game.handle_event (KEYDOWN K_SPACE) Scenario.fresh).
Proof.
  exact (activate_spam (KEYDOWN K_SPACE) [MOUSEBUTTONDOWN; KEYDOWN K_UP]
           Scenario.fresh eq_refl eq_refl eq_refl).
Defined.

(** [paused_is_frozen] on a paused run through a click and a key press. *)
Lemma paused_is_frozen_witness :
  Game.bird (run [([MOUSEBUTTONDOWN], dt60); ([KEYDOWN K_SPACE], dt60)]
               Scenario.paused)
  = Game.bird Scenario.paused.
Proof.
  assert (Hf : Forall (fun f : list Event * float =>
                         existsb is_pause (fst f) = false)
                 [([MOUSEBUTTONDOWN], dt60); ([KEYDOWN K_SPACE], dt60)])
    by (repeat constructor).
  exact (proj1 (proj2 (paused_is_frozen _ Scenario.paused eq_refl Hf))).
Defined.

(** [off_screen_pipes_retire] on a run with a pipe on its way out. *)
Lemma off_screen_pipes_retire_witness :
  Game.state Scenario.leaving = PLAYING
  /\ (length (Game.pipes (Game.update dt60 Scenario.leaving)) <= 3)%nat.
Proof.
  split; [ reflexivity | ].
  exact (proj2 (proj2 (proj2 (off_screen_pipes_retire dt60 Scenario.leaving
                                eq_refl)))).
Defined.

(** [flight_ignores_dt] on ticks of 16 ms and of 17 ms. *)
Lemma flight_ignores_dt_witness :
  Bird.y (Game.bird (Game.update 0.016 Scenario.threading))
  = Bird.y (Game.bird (Game.update 0.017 Scenario.threading)).
Proof.
  assert (H1 : Game.state Scenario.threading = PLAYING) by reflexivity.
  assert (H2 : (Game.pipe_spawn_timer Scenario.threading - 0.016 <=? 0)%float
               = (Game.pipe_spawn_timer Scenario.threading - 0.017 <=? 0)%float)
    by reflexivity.
  pose proof (flight_ignores_dt 0.016 0.017 Scenario.threading H1 H2)
    as (_ & _ & _ & _ & W & _).
  exact W.
Defined.

(** [session_constants] on a game that has ended. *)
Lemma session_constants_witness :
  Bird.x (Game.bird Scenario.crashed) = 100.
Proof. exact (proj1 (session_constants Scenario.crashed crashed_played)). Defined.

(** [pipes_in_order] on a run with its first pipe. *)
Lemma pipes_in_order_witness : Forall pipe_ok (Game.pipes Scenario.first_pipe).
Proof.
  exact (proj1 (pipes_in_order Scenario.first_pipe first_pipe_played)).
Defined.

(** [at_most_126_pipes] on a run with its first pipe. *)
Lemma at_most_126_pipes_witness :
  (length (Game.pipes Scenario.first_pipe) <= 126)%nat.
Proof. exact (at_most_126_pipes Scenario.first_pipe first_pipe_played). Defined.

(** [one_point_per_tick] on a run with its first pipe. *)
Lemma one_point_per_tick_witness : 0 <= Game.score Scenario.first_pipe.
Proof.
  exact (proj1 (one_point_per_tick Scenario.first_pipe first_pipe_played)).
Defined.

(** [shake_never_moves] on a game that has just ended, its shake at
    0.095. *)
Lemma shake_never_moves_witness : Game.draw Scenario.crashed <> None.
Proof. exact (proj2 (shake_never_moves Scenario.crashed crashed_played)). Defined.

(** [stubs_on_canvas] on the first pipe of a run. *)
Lemma stubs_on_canvas_witness :
  Forall on_canvas (Pipe.draw (Pipe.__init__ 450 95)).
Proof.
  assert (Hin : In (Pipe.__init__ 450 95) (Game.pipes Scenario.first_pipe))
    by (vm_compute; left; reflexivity).
  exact (proj1 (stubs_on_canvas Scenario.first_pipe _ first_pipe_played Hin)).
Defined.

(** [aging_loop_filters] with the [==] of the dataclass, on three particles
    of which the last two have the same fields and expire together. *)
Lemma aging_loop_filters_witness :
  map Particle.val
    (Particle.aging_loop Particle.eqb dt60 Scenario.sparks Scenario.sparks)
  = Particle.update_all dt60 (map Particle.val Scenario.sparks).
Proof.
  assert (Hnd : NoDup (map Particle.ident Scenario.sparks)).
  { cbn. repeat constructor; cbn; intuition discriminate. }
  exact (proj1 (aging_loop_filters Particle.eqb
                  (fun p q H => or_intror (eqb_lifetime p q H))
                  dt60 Scenario.sparks Hnd)).
Defined.

(** [particle_draw_clamps] on a particle whose size has decayed to 0.5. *)
Lemma particle_draw_clamps_witness :
  exists cx cy sz,
    py_int (Particle.x (Scenario.spark 0.5)) = Some cx
    /\ py_int (Particle.y (Scenario.spark 0.5)) = Some cy
    /\ py_int (Particle.size (Scenario.spark 0.5)) = Some sz
    /\ [Draw.circle (255, 200, 87) (100, 300) 1]
       = [Draw.circle (Particle.color (Scenario.spark 0.5)) (cx, cy)
            (Z.max 1 sz)]
    /\ 1 <= Z.max 1 sz.
Proof.
  exact (proj2 (particle_draw_clamps (Scenario.spark 0.5))
           [Draw.circle (255, 200, 87) (100, 300) 1] eq_refl eq_refl).
Defined.
